(** * ProcreateViewer: the document reader ([src/procreate_reader.py])

    A shallow embedding of [ProcreateFile]: the keyed-archive reference
    resolver, metadata and layer extraction, the tile decode chain with its
    chained-block ("bv41") codec, tile assembly and layer compositing,
    followed by the properties established about them.

    Conventions.
    - Python exceptions are explicit: a computation that may raise returns
      [Result A]; [try/except Exception] is [catch].
    - [bytes] are lists of [Byte.byte]; Python [int] is [Z]; Python [float]
      is the kernel's binary64 [float].
    - ZIP entry names and plist keys are [string]s over the ASCII range.
    - The third-party decompressors (lz4, lzo, zlib), the property-list
      parser and the image file decoder are an interface ([Runtime]); the
      functions of the reader are generic in it.
    - The imaging library's raster operations are modelled on unbounded
      integer coordinates; [paste] raises where the library's conversion
      of the box to C integers overflows. Allocation limits, among them
      the size an image may have, are outside the model. *)

From Stdlib Require Import ZArith List Bool Lia.
From Stdlib Require Import Strings.String Strings.Ascii Strings.Byte.
From Stdlib Require Import Numbers.DecimalString Numbers.DecimalNat.
From Stdlib Require Import Floats.PrimFloat Floats.FloatOps Floats.SpecFloat.
From stdpp Require Import gmap.

Open Scope string_scope.
Open Scope list_scope.
Open Scope Z_scope.

(* ================================================================== *)
(** * Python run-time values and primitives                            *)
(* ================================================================== *)

(** ** Exceptions *)

Inductive Result (A : Type) : Type :=
| Ret (a : A)
| Raise.
Arguments Ret {A} a.
Arguments Raise {A}.

#[global] Instance Result_ret : MRet Result := fun _ a => Ret a.

#[global] Instance Result_bind : MBind Result := fun _ _ k c =>
  match c with
  | Ret a => k a
  | Raise => Raise
  end.

(** [try: c except Exception: h] *)
Definition catch {A} (c : Result A) (h : Result A) : Result A :=
  match c with
  | Ret a => Ret a
  | Raise => h
  end.

(** A library call that either returns or raises, seen as a [Result]. *)
Definition of_option {A} (o : option A) : Result A :=
  match o with
  | Some a => Ret a
  | None => Raise
  end.

(** ** bytes *)

Definition bytes := list byte.

Definition byte_val (b : byte) : Z := Z.of_N (Byte.to_N b).

(** [a == b] on bytes *)
Fixpoint bytes_eqb (a b : bytes) : bool :=
  match a, b with
  | [], [] => true
  | x :: a', y :: b' => Byte.eqb x y && bytes_eqb a' b'
  | _, _ => false
  end.

Definition len {A} (l : list A) : Z := Z.of_nat (length l).

(** [raw[a:b]] for [0 <= a]: the elements at positions [a <= i < min b len]. *)
Definition py_slice {A} (raw : list A) (a b : Z) : list A :=
  let n := len raw in
  let a' := Z.min a n in
  let b' := Z.min b n in
  firstn (Z.to_nat (b' - a')) (skipn (Z.to_nat a') raw).

(** [struct.unpack_from("<I", raw, off)[0]]: raises [struct.error] when
    fewer than four bytes remain at [off]. *)
Definition unpack_from_le32 (raw : bytes) (off : Z) : Result Z :=
  match py_slice raw off (off + 4) with
  | [b0; b1; b2; b3] =>
      Ret (byte_val b0 + 256 * (byte_val b1 + 256 * (byte_val b2 + 256 * byte_val b3)))
  | _ => Raise
  end.

(** [struct.unpack(">i", val)[0]]: a signed big-endian 32-bit integer;
    raises unless [val] is exactly four bytes long. *)
Definition unpack_be_i32 (val : bytes) : Result Z :=
  match val with
  | [b0; b1; b2; b3] =>
      let u := byte_val b3 + 256 * (byte_val b2 + 256 * (byte_val b1 + 256 * byte_val b0)) in
      Ret (if u <? 2 ^ 31 then u else u - 2 ^ 32)
  | _ => Raise
  end.

(** ** float *)

(** [int(f)]: truncation toward zero; [ValueError] on NaN and
    [OverflowError] on an infinity. *)
Definition int_of_float (f : float) : Result Z :=
  match Prim2SF f with
  | S754_zero _ => Ret 0
  | S754_finite s m e =>
      let v := if 0 <=? e then Z.pos m * 2 ^ e else Z.pos m / 2 ^ (- e) in
      Ret (if s then - v else v)
  | S754_infinity _ => Raise
  | S754_nan => Raise
  end.

(** [float(z)]: the nearest binary64 value (ties to even); [OverflowError]
    when [z] is too large. *)
Definition float_of_int (z : Z) : Result float :=
  match binary_normalize prec emax z 0 false with
  | S754_infinity _ => Raise
  | sf => Ret (SF2Prim sf)
  end.

(** [x * op] for an [int] [x] and a [float] [op]. *)
Definition int_times_float (x : Z) (op : float) : Result float :=
  fx ← float_of_int x; Ret (PrimFloat.mul fx op).

(** ** str *)

Definition is_upper (c : ascii) : bool :=
  let n := nat_of_ascii c in ((65 <=? n) && (n <=? 90))%nat.

Definition lower_char (c : ascii) : ascii :=
  if is_upper c then ascii_of_nat (nat_of_ascii c + 32) else c.

(** [s.lower()] *)
Fixpoint lower (s : string) : string :=
  match s with
  | EmptyString => EmptyString
  | String c r => String (lower_char c) (lower r)
  end.

(** [s.startswith(p)] *)
Definition startswith (s p : string) : bool := String.prefix p s.

(** [s[n:]] *)
Definition str_from (n : nat) (s : string) : string :=
  substring n (String.length s - n) s.

(** [s[:-n]] for [0 < n] *)
Definition str_drop_last (n : nat) (s : string) : string :=
  substring 0 (String.length s - n) s.

(** [s.endswith(p)] *)
Definition endswith (s p : string) : bool :=
  (String.length p <=? String.length s)%nat
  && String.eqb (str_from (String.length s - String.length p) s) p.

(** [c in s] for a one-character [c] *)
Fixpoint has_char (c : ascii) (s : string) : bool :=
  match s with
  | EmptyString => false
  | String d r => Ascii.eqb c d || has_char c r
  end.

(** [p in s] for strings: [p] occurs in [s] *)
Fixpoint contains (s p : string) : bool :=
  String.prefix p s
  || match s with
     | EmptyString => false
     | String _ r => contains r p
     end.

(** [s.split(c)] for a one-character separator: never empty. *)
Fixpoint str_split (c : ascii) (s : string) : list string :=
  match s with
  | EmptyString => [EmptyString]
  | String d r =>
      if Ascii.eqb c d then EmptyString :: str_split c r
      else match str_split c r with
           | h :: t => String d h :: t
           | [] => [String d EmptyString]
           end
  end.

(** The characters [int] strips from the ends of an ASCII string: tab,
    line feed, vertical tab, form feed, carriage return and space. The
    separators 28 to 31 are white space for [str.strip] and not for
    [int]. *)
Definition is_space (c : ascii) : bool :=
  let n := nat_of_ascii c in
  (((9 <=? n) && (n <=? 13)) || (n =? 32))%nat.

Fixpoint lstrip (s : string) : string :=
  match s with
  | String c r => if is_space c then lstrip r else s
  | EmptyString => EmptyString
  end.

Fixpoint rstrip (s : string) : string :=
  match s with
  | EmptyString => EmptyString
  | String c r =>
      match rstrip r with
      | EmptyString => if is_space c then EmptyString else String c EmptyString
      | r' => String c r'
      end
  end.

Definition is_digit (c : ascii) : bool :=
  let n := nat_of_ascii c in ((48 <=? n) && (n <=? 57))%nat.

Definition digit_val (c : ascii) : Z := Z.of_nat (nat_of_ascii c) - 48.

(** Decimal digits with single underscores allowed between digits. *)
Fixpoint digits_value (s : string) (acc : Z) (prev_digit : bool) : option Z :=
  match s with
  | EmptyString => if prev_digit then Some acc else None
  | String c r =>
      if is_digit c then digits_value r (10 * acc + digit_val c) true
      else if Ascii.eqb c "_" then
             (if prev_digit then digits_value r acc false else None)
      else None
  end.

(** [int(s)] for a string: [None] stands for [ValueError]. The
    interpreter also refuses a string of more than 4300 digits (unless
    configured otherwise); that limit is kept out of this function, and
    the statements about names read from a container are made for names
    within it ([within_digit_limit]). *)
Definition int_of_str (s : string) : option Z :=
  match rstrip (lstrip s) with
  | String "-" r => option_map Z.opp (digits_value r 0 false)
  | String "+" r => digits_value r 0 false
  | t => digits_value t 0 false
  end.

(** [str(n)] for a natural number, as an f-string prints it. *)
Definition str_of_nat (n : nat) : string :=
  NilZero.string_of_uint (Nat.to_uint n).

(* ================================================================== *)
(** * Property-list values                                             *)
(* ================================================================== *)

(** What [plistlib.loads] returns: booleans, integers, reals, strings,
    byte blobs, [plistlib.UID] references, dates, arrays and dictionaries
    (string keys, in insertion order, each key once). *)
#[local] Unset Elimination Schemes.
Inductive PValue : Type :=
| PBool (b : bool)
| PInt (z : Z)
| PReal (f : float)
| PStr (s : string)
| PBytes (b : bytes)
| PUID (data : Z)
| PDate
| PList (l : list PValue)
| PDict (d : list (string * PValue)).
#[local] Set Elimination Schemes.

Definition pdict := list (string * PValue).

(** [d.get(key)]: [None] when the key is absent. *)
Fixpoint dict_get (d : pdict) (key : string) : option PValue :=
  match d with
  | [] => None
  | (k, v) :: r => if String.eqb k key then Some v else dict_get r key
  end.

(** [d.get(key, default)] where the default is itself an optional value. *)
Definition dict_get_or (d : pdict) (key : string) (default : option PValue)
  : option PValue :=
  match dict_get d key with
  | Some v => Some v
  | None => default
  end.

(** [isinstance(v, dict)] *)
Definition as_dict (v : option PValue) : option pdict :=
  match v with
  | Some (PDict d) => Some d
  | _ => None
  end.

(** [isinstance(v, str)] *)
Definition as_str (v : option PValue) : option string :=
  match v with
  | Some (PStr s) => Some s
  | _ => None
  end.

(** [isinstance(v, (int, float))]; [bool] is a subclass of [int]. *)
Definition is_number (v : PValue) : bool :=
  match v with
  | PBool _ | PInt _ | PReal _ => true
  | _ => false
  end.

(** [int(v)] for a number. *)
Definition int_of_number (v : PValue) : Result Z :=
  match v with
  | PBool b => Ret (if b then 1 else 0)
  | PInt z => Ret z
  | PReal f => int_of_float f
  | _ => Raise
  end.

(** [float(v)] for a number. *)
Definition float_of_number (v : PValue) : Result float :=
  match v with
  | PBool b => Ret (if b then 1%float else 0%float)
  | PInt z => float_of_int z
  | PReal f => Ret f
  | _ => Raise
  end.

(** Truth value of an object ([bool(v)]); [None] is false. *)
Definition truthy (v : option PValue) : bool :=
  match v with
  | None => false
  | Some (PBool b) => b
  | Some (PInt z) => negb (z =? 0)
  | Some (PReal f) => negb (PrimFloat.eqb f 0%float)
  | Some (PStr s) => negb (String.eqb s "")
  | Some (PBytes b) => negb (bytes_eqb b [])
  | Some (PUID _) => true
  | Some PDate => true
  | Some (PList l) => match l with [] => false | _ => true end
  | Some (PDict d) => match d with [] => false | _ => true end
  end.

(** [len(v)]: [TypeError] for an object without a length. *)
Definition py_len (v : PValue) : Result Z :=
  match v with
  | PList l => Ret (len l)
  | PDict d => Ret (len d)
  | PStr s => Ret (Z.of_nat (String.length s))
  | PBytes b => Ret (len b)
  | _ => Raise
  end.

(** [v[idx]] for [0 <= idx < len(v)]; a dictionary has string keys only,
    so an integer subscript is a [KeyError]. *)
Definition py_getitem (v : PValue) (idx : Z) : Result PValue :=
  match v with
  | PList l => of_option (nth_error l (Z.to_nat idx))
  | PStr s => of_option (option_map (fun c => PStr (String c "")) (String.get (Z.to_nat idx) s))
  | PBytes b => of_option (option_map (fun x => PInt (byte_val x)) (nth_error b (Z.to_nat idx)))
  | _ => Raise
  end.

(** [for x in v]: the elements iterated over; [TypeError] when [v] is not
    iterable. *)
Fixpoint chars_of (s : string) : list PValue :=
  match s with
  | EmptyString => []
  | String c r => PStr (String c "") :: chars_of r
  end.

Definition py_iter (v : PValue) : Result (list PValue) :=
  match v with
  | PList l => Ret l
  | PDict d => Ret (map (fun kv => PStr (fst kv)) d)
  | PStr s => Ret (chars_of s)
  | PBytes b => Ret (map (fun x => PInt (byte_val x)) b)
  | _ => Raise
  end.

(** ["SilicaLayer" in v]: substring test on a string, membership in an
    array, key membership in a dictionary, [TypeError] otherwise. *)
Definition py_str_in (p : string) (v : PValue) : Result bool :=
  match v with
  | PStr s => Ret (contains s p)
  | PList l => Ret (existsb (fun x => match x with PStr s => String.eqb s p | _ => false end) l)
  | PDict d => Ret (existsb (fun kv => String.eqb (fst kv) p) d)
  | _ => Raise
  end.

(* ================================================================== *)
(** * Raster images                                                    *)
(* ================================================================== *)

(** One RGBA pixel; each channel is an 8-bit value. *)
Record RGBA : Type := mkRGBA { chR : Z; chG : Z; chB : Z; chA : Z }.

(** An image: its size and the colour at each position (only positions
    inside the size are meaningful). *)
Record Image : Type := mkImage {
  width : Z;
  height : Z;
  pixel : Z -> Z -> RGBA;
}.

(** One band of an image ([Image.split]). *)
Record Band : Type := mkBand {
  band_width : Z;
  band_height : Z;
  band_value : Z -> Z -> Z;
}.

Definition Image_size (im : Image) : Z * Z := (width im, height im).

Definition size_eqb (a b : Z * Z) : bool :=
  (fst a =? fst b) && (snd a =? snd b).

Definition in_bounds (im : Image) (x y : Z) : bool :=
  (0 <=? x) && (x <? width im) && (0 <=? y) && (y <? height im).

(** [Image.new("RGBA", (w, h), color)] *)
Definition Image_new (sz : Z * Z) (color : RGBA) : Image :=
  mkImage (fst sz) (snd sz) (fun _ _ => color).

(** [Image.frombytes("RGBA", (side, side), data, "raw", "BGRA")]: pixel
    [(x, y)] is read from the four bytes at [4 * (y * side + x)], stored
    blue, green, red, alpha. *)
Definition Image_frombytes_BGRA (side : Z) (data : bytes) : Image :=
  let at_ (i : Z) := byte_val (nth (Z.to_nat i) data x00) in
  mkImage side side (fun x y =>
    let o := 4 * (y * side + x) in
    mkRGBA (at_ (o + 2)) (at_ (o + 1)) (at_ o) (at_ (o + 3))).

(** A value the imaging library can convert to a C [int]. *)
Definition c_int (v : Z) : bool := (- 2 ^ 31 <=? v) && (v <? 2 ^ 31).

(** [base] after a paste of [tile] at [(ox, oy)]: the tile replaces the
    pixels of the box whose upper left corner is [(ox, oy)]; the part of
    the box outside [base] is dropped. *)
Definition pasted (base tile : Image) (at_ : Z * Z) : Image :=
  let ox := fst at_ in
  let oy := snd at_ in
  mkImage (width base) (height base) (fun x y =>
    if (ox <=? x) && (x <? ox + width tile) && (oy <=? y) && (y <? oy + height tile)
    then pixel tile (x - ox) (y - oy)
    else pixel base x y).

(** [base.paste(tile, (ox, oy))]: the box [(ox, oy, ox + w, oy + h)] is
    handed to the library as four C integers; [OverflowError] when one of
    them does not fit. *)
Definition paste (base tile : Image) (at_ : Z * Z) : Result Image :=
  let ox := fst at_ in
  let oy := snd at_ in
  if c_int ox && c_int oy && c_int (ox + width tile) && c_int (oy + height tile)
  then Ret (pasted base tile at_)
  else Raise.

(** [im.crop((left, upper, right, lower))]; positions outside [im] are
    transparent black. *)
Definition crop (im : Image) (left upper right lower : Z) : Image :=
  mkImage (right - left) (lower - upper) (fun x y =>
    if in_bounds im (x + left) (y + upper)
    then pixel im (x + left) (y + upper)
    else mkRGBA 0 0 0 0).

(** [im.split()] of an RGBA image *)
Definition split_bands (im : Image) : Band * Band * Band * Band :=
  let band (ch : RGBA -> Z) :=
    mkBand (width im) (height im) (fun x y => ch (pixel im x y)) in
  (band chR, band chG, band chB, band chA).

(** [Image.merge("RGBA", (r, g, b, a))] *)
Definition merge_bands (r g b a : Band) : Image :=
  mkImage (band_width r) (band_height r) (fun x y =>
    mkRGBA (band_value r x y) (band_value g x y) (band_value b x y) (band_value a x y)).

Definition clip8 (v : Z) : Z := Z.max 0 (Z.min 255 v).

Fixpoint mapM {A B} (f : A -> Result B) (l : list A) : Result (list B) :=
  match l with
  | [] => Ret []
  | a :: r => b ← f a; bs ← mapM f r; Ret (b :: bs)
  end.

(** [band.point(f)]: [f] is evaluated on every value [0..255] to build a
    lookup table (an exception of [f] propagates), the table entries are
    clipped to 8 bits, and every sample is replaced by its entry. *)
Definition point (band : Band) (f : Z -> Result Z) : Result Band :=
  lut ← mapM f (map Z.of_nat (seq 0 256));
  Ret (mkBand (band_width band) (band_height band) (fun x y =>
         clip8 (nth (Z.to_nat (band_value band x y)) lut 0))).

(** Division by 255 by shifts, as the imaging library's blend does it. *)
Definition shift_for_div255 (a : Z) : Z :=
  Z.shiftr (Z.shiftr a 8 + a) 8.

(** One pixel of [Image.alpha_composite]: [src] over [dst], in integer
    arithmetic with 7 extra bits of precision. *)
Definition over (dst src : RGBA) : RGBA :=
  if chA src =? 0 then dst
  else
    let blend := chA dst * (255 - chA src) in
    let outa255 := chA src * 255 + blend in
    let coef1 := chA src * 255 * 255 * 128 / outa255 in
    let coef2 := 255 * 128 - coef1 in
    let ch (s d : Z) :=
      Z.shiftr (shift_for_div255 (s * coef1 + d * coef2 + 128 * 128)) 7 in
    mkRGBA (ch (chR src) (chR dst)) (ch (chG src) (chG dst))
           (ch (chB src) (chB dst)) (shift_for_div255 (outa255 + 128)).

(** [Image.alpha_composite(dst, src)]: [ValueError] when the sizes differ. *)
Definition alpha_composite (dst src : Image) : Result Image :=
  if size_eqb (Image_size dst) (Image_size src)
  then Ret (mkImage (width dst) (height dst) (fun x y =>
              over (pixel dst x y) (pixel src x y)))
  else Raise.

(* ================================================================== *)
(** * The libraries the reader calls                                   *)
(* ================================================================== *)

(** The third-party functions the reader relies on. [None] stands for an
    exception of the call (which includes a module that is not installed:
    every call site sits in a [try] with its [import]). *)
Class Runtime : Type := {
  (** [lz4.block.decompress(source, uncompressed_size=n, dict=d)] *)
  lz4_block_decompress : bytes -> Z -> option bytes -> option bytes;
  (** [lzo.decompress(source, False, n)] *)
  lzo_decompress : bytes -> Z -> option bytes;
  (** [zlib.decompress(source)] *)
  zlib_decompress : bytes -> option bytes;
  (** [plistlib.loads(data)] *)
  plistlib_loads : bytes -> option PValue;
  (** [Image.open(io.BytesIO(data))] followed by [load()] *)
  Image_open : bytes -> option Image;
}.

(** An opened [zipfile.ZipFile]: its entry names and the content of an
    entry ([None]: no such entry, or the entry cannot be read). *)
Record ZipFile : Type := mkZipFile {
  namelist : list string;
  zip_read : string -> option bytes;
}.

(** What [filepath] designates on disk. *)
Inductive FileSource : Type :=
| NoSuchFile
| NotAZip
| Archive (z : ZipFile).

(* ================================================================== *)
(** * ProcreateLayer and ProcreateFile                                 *)
(* ================================================================== *)

Record ProcreateLayer : Type := mkLayer {
  name : string;
  uuid : string;
  opacity : float;
  visible : bool;
  blend_mode : Z;
}.

Record ProcreateFile : Type := mkFile {
  thumbnail : option Image;
  composite : option Image;
  layers : list ProcreateLayer;
  canvas_width : Z;
  canvas_height : Z;
  dpi : Z;
  orientation : Z;
  color_profile : string;
  layer_count : Z;
  video_enabled : bool;
  metadata : pdict;
  _zip : option ZipFile;
  _document_archive : option PValue;
  _archive_objects : PValue;
}.

(** The attribute values [__init__] assigns before [_load]. *)
Definition initial_file : ProcreateFile :=
  {| thumbnail := None; composite := None; layers := [];
     canvas_width := 0; canvas_height := 0; dpi := 132; orientation := 0;
     color_profile := "sRGB"; layer_count := 0; video_enabled := false;
     metadata := []; _zip := None; _document_archive := None;
     _archive_objects := PList [] |}.

(** Attribute assignments. *)
Definition set_thumbnail (v : option Image) (pf : ProcreateFile) :=
  mkFile v (composite pf) (layers pf) (canvas_width pf) (canvas_height pf)
    (dpi pf) (orientation pf) (color_profile pf) (layer_count pf)
    (video_enabled pf) (metadata pf) (_zip pf) (_document_archive pf)
    (_archive_objects pf).

Definition set_composite (v : option Image) (pf : ProcreateFile) :=
  mkFile (thumbnail pf) v (layers pf) (canvas_width pf) (canvas_height pf)
    (dpi pf) (orientation pf) (color_profile pf) (layer_count pf)
    (video_enabled pf) (metadata pf) (_zip pf) (_document_archive pf)
    (_archive_objects pf).

Definition set_layers (v : list ProcreateLayer) (n : Z) (pf : ProcreateFile) :=
  mkFile (thumbnail pf) (composite pf) v (canvas_width pf) (canvas_height pf)
    (dpi pf) (orientation pf) (color_profile pf) n
    (video_enabled pf) (metadata pf) (_zip pf) (_document_archive pf)
    (_archive_objects pf).

Definition set_metadata_fields (w h d o : Z) (video : bool) (cp : string)
    (md : pdict) (pf : ProcreateFile) :=
  mkFile (thumbnail pf) (composite pf) (layers pf) w h d o cp (layer_count pf)
    video md (_zip pf) (_document_archive pf) (_archive_objects pf).

Definition set_zip (v : option ZipFile) (pf : ProcreateFile) :=
  mkFile (thumbnail pf) (composite pf) (layers pf) (canvas_width pf)
    (canvas_height pf) (dpi pf) (orientation pf) (color_profile pf)
    (layer_count pf) (video_enabled pf) (metadata pf) v
    (_document_archive pf) (_archive_objects pf).

Definition set_document_archive (v : option PValue) (pf : ProcreateFile) :=
  mkFile (thumbnail pf) (composite pf) (layers pf) (canvas_width pf)
    (canvas_height pf) (dpi pf) (orientation pf) (color_profile pf)
    (layer_count pf) (video_enabled pf) (metadata pf) (_zip pf) v
    (_archive_objects pf).

Definition set_archive_objects (v : PValue) (pf : ProcreateFile) :=
  mkFile (thumbnail pf) (composite pf) (layers pf) (canvas_width pf)
    (canvas_height pf) (dpi pf) (orientation pf) (color_profile pf)
    (layer_count pf) (video_enabled pf) (metadata pf) (_zip pf)
    (_document_archive pf) v.

Section Reader.

Context `{RT : Runtime}.

(** ** Loading: thumbnail and composite *)

(** [_try_load_image]: any exception gives [None]. *)
Definition _try_load_image (pf : ProcreateFile) (zip_path : string)
  : option Image :=
  z ← _zip pf; data ← zip_read z zip_path; Image_open data.

(** [for path in candidates: img = ...; if img: return img] *)
Fixpoint first_image (pf : ProcreateFile) (candidates : list string)
  : option Image :=
  match candidates with
  | [] => None
  | path :: rest =>
      match _try_load_image pf path with
      | Some img => Some img
      | None => first_image pf rest
      end
  end.

Definition _load_thumbnail (pf : ProcreateFile) : Result ProcreateFile :=
  match first_image pf ["QuickLook/Thumbnail.png"; "QuickLook/thumbnail.png";
                        "Thumbnail.png"] with
  | Some img => Ret (set_thumbnail (Some img) pf)
  | None =>
      (* Fallback: any PNG in QuickLook/ *)
      z ← of_option (_zip pf);
      match first_image pf
              (filter (fun n => startswith n "QuickLook/" && endswith (lower n) ".png")
                      (namelist z)) with
      | Some img => Ret (set_thumbnail (Some img) pf)
      | None => Ret pf
      end
  end.

Definition _load_composite (pf : ProcreateFile) : ProcreateFile :=
  match first_image pf ["QuickLook/Preview.png"; "QuickLook/preview.png";
                        "composite.png"] with
  | Some img => set_composite (Some img) pf
  | None => pf
  end.

(** ** Document archive *)

(** The loop of [_load_document_archive]. The parsed value is stored
    before its ["$objects"] entry is asked for, so a parsed value that is
    not a dictionary stays in [_document_archive] when the [AttributeError]
    of [.get] sends the loop to the next path. *)
Fixpoint load_archive_paths (pf : ProcreateFile) (paths : list string)
  : ProcreateFile :=
  match paths with
  | [] => pf
  | path :: rest =>
      match (z ← _zip pf; data ← zip_read z path; plistlib_loads data) with
      | None => load_archive_paths pf rest
      | Some v =>
          let pf' := set_document_archive (Some v) pf in
          match v with
          | PDict d =>
              set_archive_objects
                (default (PList []) (dict_get d "$objects")) pf'
          | _ => load_archive_paths pf' rest
          end
      end
  end.

Definition _load_document_archive (pf : ProcreateFile) : ProcreateFile :=
  load_archive_paths pf ["Document.archive"; "document.archive"].

(** The index a reference designates: an [int] (a [bool] is one), or the
    [data] of a [plistlib.UID]; no index for any other object. *)
Definition uid_index (uid : PValue) : option Z :=
  match uid with
  | PBool b => Some (if b then 1 else 0)
  | PInt z => Some z
  | PUID data => Some data
  | _ => None
  end.

Definition _resolve_uid (pf : ProcreateFile) (uid : option PValue)
  : Result (option PValue) :=
  match uid with
  | None => Ret None
  | Some u =>
      match uid_index u with
      | None => Ret None
      | Some idx =>
          if 0 <=? idx then
            n ← py_len (_archive_objects pf);
            if idx <? n
            then v ← py_getitem (_archive_objects pf) idx; Ret (Some v)
            else Ret None
          else Ret None
      end
  end.

Definition _get_root_object (pf : ProcreateFile) : Result (option pdict) :=
  if negb (truthy (_document_archive pf)) then Ret None
  else
    archive ← of_option (as_dict (_document_archive pf));
    top ← of_option (as_dict (dict_get_or archive "$top" (Some (PDict []))));
    root ← _resolve_uid pf (dict_get top "root");
    match root with
    | Some (PDict d) => Ret (Some d)
    | _ =>
        (* Fallback: try index 1 *)
        n ← py_len (_archive_objects pf);
        if 1 <? n then
          o ← py_getitem (_archive_objects pf) 1;
          match o with
          | PDict d => Ret (Some d)
          | _ => Ret None
          end
        else Ret None
    end.

(** ** Metadata *)

Fixpoint _get_int (d : pdict) (keys : list string) (default : Z) : Result Z :=
  match keys with
  | [] => Ret default
  | key :: rest =>
      match dict_get d key with
      | None => _get_int d rest default
      | Some val =>
          if is_number val then int_of_number val
          else match val with
               | PBytes b =>
                   catch (unpack_be_i32 (py_slice b 0 4)) (_get_int d rest default)
               | _ => _get_int d rest default
               end
      end
  end.

(** [v not in (False, None, "$null")] *)
Definition not_a_null_sentinel (v : PValue) : bool :=
  match v with
  | PBool b => b
  | PInt z => negb (z =? 0)
  | PReal f => negb (PrimFloat.eqb f 0%float)
  | PStr s => negb (String.eqb s "$null")
  | _ => true
  end.

(** [isinstance(v, (str, int, float, bool))] *)
Definition is_scalar (v : PValue) : bool :=
  match v with
  | PStr _ | PInt _ | PReal _ | PBool _ => true
  | _ => false
  end.

(** [md[k] = v] *)
Fixpoint dict_set (md : pdict) (k : string) (v : PValue) : pdict :=
  match md with
  | [] => [(k, v)]
  | (k', v') :: r =>
      if String.eqb k' k then (k', v) :: r else (k', v') :: dict_set r k v
  end.

(** A dictionary is false when it is empty: [if not root: return]. *)
Definition usable_root (root : option pdict) : option pdict :=
  match root with
  | Some (kv :: r) => Some (kv :: r)
  | _ => None
  end.

Definition _parse_metadata (pf : ProcreateFile) : Result ProcreateFile :=
  root ← _get_root_object pf;
  match usable_root root with
  | None => Ret pf
  | Some root =>
      w ← _get_int root ["SilicaDocumentArchiveDimensionWidth"; "width";
                         "canvasWidth"; "tileSize"] 0;
      h ← _get_int root ["SilicaDocumentArchiveDimensionHeight"; "height";
                         "canvasHeight"] 0;
      (* If dimensions not found, infer from thumbnail *)
      let w := match thumbnail pf with
               | Some t => if w =? 0 then width t else w
               | None => w
               end in
      let h := match thumbnail pf with
               | Some t => if h =? 0 then height t else h
               | None => h
               end in
      d ← _get_int root ["SilicaDocumentArchiveDPI"; "dpi"] 0;
      let d := if 0 <? d then d else dpi pf in
      o ← _get_int root ["SilicaDocumentArchiveOrientation"; "orientation"] 0;
      let video :=
        match dict_get root "SilicaDocumentVideoSegmentInfoKey" with
        | Some v => not_a_null_sentinel v
        | None => false
        end in
      cp ← _resolve_uid pf (dict_get root "SilicaDocumentArchiveICCProfileData");
      let cp := match cp with
                | Some (PStr s) => s
                | _ => color_profile pf
                end in
      let md := fold_left (fun md kv =>
                  if is_scalar (snd kv) then dict_set md (fst kv) (snd kv) else md)
                  root (metadata pf) in
      Ret (set_metadata_fields w h d o video cp md pf)
  end.

(** ** Layers *)

Fixpoint _resolve_layer_field (pf : ProcreateFile) (layer_dict : pdict)
    (keys : list string) : Result (option PValue) :=
  match keys with
  | [] => Ret None
  | key :: rest =>
      match dict_get layer_dict key with
      | None => _resolve_layer_field pf layer_dict rest
      | Some val =>
          resolved ← _resolve_uid pf (Some val);
          match resolved, val with
          | Some (PDict _), PStr _ => Ret (Some val)
          | Some (PDict _), _ => _resolve_layer_field pf layer_dict rest
          | Some r, _ => Ret (Some r)
          | None, PStr _ => Ret (Some val)
          | None, _ => _resolve_layer_field pf layer_dict rest
          end
      end
  end.

(** [f"Layer {len(self.layers) + 1}"] *)
Definition placeholder_name (so_far : list ProcreateLayer) : string :=
  String.append "Layer " (str_of_nat (length so_far + 1)).

(** The value kept when it is a number, the default otherwise. *)
Definition number_or (v : option PValue) (default : PValue) : PValue :=
  match v with
  | Some x => if is_number x then x else default
  | None => default
  end.

(** One iteration of the main loop of [_parse_layers], for a reference
    that resolved to the dictionary [layer_dict]. *)
Definition layer_of_dict (pf : ProcreateFile) (layer_dict : pdict)
    (so_far : list ProcreateLayer) : Result ProcreateLayer :=
  nm ← _resolve_layer_field pf layer_dict ["name"; "SilicaLayerArchiveName"];
  let nm := match nm with
            | Some (PStr s) => s
            | _ => placeholder_name so_far
            end in
  uu ← _resolve_layer_field pf layer_dict ["UUID"; "uuid"; "SilicaLayerArchiveUUID"];
  let uu := match uu with
            | Some (PStr s) => s
            | _ => ""
            end in
  let op := number_or
              (dict_get_or layer_dict "contentsOpacity"
                 (dict_get_or layer_dict "opacity"
                    (dict_get_or layer_dict "SilicaLayerArchiveOpacity"
                       (Some (PReal 1%float)))))
              (PReal 1%float) in
  let vis := negb (truthy
              (dict_get_or layer_dict "hidden"
                 (dict_get_or layer_dict "SilicaLayerArchiveHidden"
                    (Some (PBool false))))) in
  let blend := number_or
                 (dict_get_or layer_dict "extendedBlend"
                    (dict_get_or layer_dict "blend"
                       (dict_get_or layer_dict "blendMode" (Some (PInt 0)))))
                 (PInt 0) in
  op ← float_of_number op;
  blend ← int_of_number blend;
  Ret (mkLayer nm uu op vis blend).

(** [for ref in obj_refs: ...] of [_parse_layers]; [so_far] is
    [self.layers]. *)
Fixpoint parse_layer_refs (pf : ProcreateFile) (obj_refs : list PValue)
    (so_far : list ProcreateLayer) : Result (list ProcreateLayer) :=
  match obj_refs with
  | [] => Ret so_far
  | ref :: rest =>
      layer_dict ← _resolve_uid pf (Some ref);
      match layer_dict with
      | Some (PDict d) =>
          layer ← layer_of_dict pf d so_far;
          parse_layer_refs pf rest (so_far ++ [layer])
      | _ => parse_layer_refs pf rest so_far
      end
  end.

(** One object of the fallback scan: [None] when the object is skipped. *)
Definition fallback_layer (pf : ProcreateFile) (obj : PValue)
    (so_far : list ProcreateLayer) : Result (option ProcreateLayer) :=
  match obj with
  | PDict d =>
      match dict_get d "$class" with
      | None => Ret None
      | Some cls_ref =>
          cls_obj ← _resolve_uid pf (Some cls_ref);
          match cls_obj with
          | Some (PDict c) =>
              is_layer ← py_str_in "SilicaLayer"
                           (default (PStr "") (dict_get c "$classname"));
              if negb is_layer then Ret None
              else
                nm ← _resolve_uid pf
                       (dict_get_or d "name" (dict_get d "SilicaLayerArchiveName"));
                let nm := match nm with
                          | Some (PStr s) => s
                          | _ => placeholder_name so_far
                          end in
                let op := number_or
                            (dict_get_or d "contentsOpacity"
                               (dict_get_or d "opacity" (Some (PReal 1%float))))
                            (PReal 1%float) in
                let vis := negb (truthy (dict_get_or d "hidden" (Some (PBool false)))) in
                op ← float_of_number op;
                Ret (Some (mkLayer nm "" op vis 0))
          | _ => Ret None
          end
      end
  | _ => Ret None
  end.

Fixpoint fallback_scan (pf : ProcreateFile) (objs : list PValue)
    (so_far : list ProcreateLayer) : Result (list ProcreateLayer) :=
  match objs with
  | [] => Ret so_far
  | obj :: rest =>
      l ← fallback_layer pf obj so_far;
      match l with
      | Some layer => fallback_scan pf rest (so_far ++ [layer])
      | None => fallback_scan pf rest so_far
      end
  end.

Definition _parse_layers_fallback (pf : ProcreateFile)
  : Result (list ProcreateLayer) :=
  objs ← py_iter (_archive_objects pf);
  fallback_scan pf objs (layers pf).

Definition _parse_layers (pf : ProcreateFile) : Result ProcreateFile :=
  root ← _get_root_object pf;
  match usable_root root with
  | None => Ret pf
  | Some root =>
      layers_ref ← _resolve_uid pf
                     (dict_get_or root "SilicaDocumentArchiveLayers"
                        (dict_get root "layers"));
      obj_refs ←
        match layers_ref with
        | Some (PDict d) => py_iter (default (PList []) (dict_get d "NS.objects"))
        | Some (PList l) => Ret l
        | _ => Ret []
        end;
      ls ← parse_layer_refs pf obj_refs (layers pf);
      ls ← match ls with
           | [] => _parse_layers_fallback (set_layers ls (layer_count pf) pf)
           | _ => Ret ls
           end;
      Ret (set_layers ls (match ls with
                          | [] => layer_count pf
                          | _ => len ls
                          end) pf)
  end.

(** ** Opening a file *)

(** [ProcreateFile(filepath)]: [__init__] followed by [_load]. *)
Definition _load (pf : ProcreateFile) (src : FileSource)
  : Result ProcreateFile :=
  match src with
  | NoSuchFile => Raise   (* FileNotFoundError *)
  | NotAZip => Raise      (* ValueError *)
  | Archive z =>
      let pf := set_zip (Some z) pf in
      pf ← _load_thumbnail pf;
      let pf := _load_composite pf in
      let pf := _load_document_archive pf in
      pf ← _parse_metadata pf;
      _parse_layers pf
  end.

Definition ProcreateFile_open (src : FileSource) : Result ProcreateFile :=
  _load initial_file src.

(** ** Tile decoding *)

(** [b"bv41"] and [b"bv4$"] *)
Definition bv41_magic : bytes := [x62; x76; x34; x31].
Definition bv41_end : bytes := [x62; x76; x34; x24].

(** The [while off < len(raw)] loop of method 0. [fuel] bounds the number
    of iterations ([None]: the bound was reached); [bv41_decode] starts it
    with more iterations than the loop can make, since every iteration
    moves [off] forward by at least 12. *)
Fixpoint bv41_loop (fuel : nat) (raw : bytes) (off : Z) (prev_dict : bytes)
    (bv_parts : list bytes) : option (Result (list bytes)) :=
  match fuel with
  | O => None
  | S fuel' =>
      if off <? len raw then
        if bytes_eqb (py_slice raw off (off + 4)) bv41_end then Some (Ret bv_parts)
        else if negb (bytes_eqb (py_slice raw off (off + 4)) bv41_magic)
        then Some (Ret bv_parts)
        else
          let off := off + 4 in
          match unpack_from_le32 raw off with
          | Raise => Some Raise
          | Ret u_size =>
              let off := off + 4 in
              match unpack_from_le32 raw off with
              | Raise => Some Raise
              | Ret c_size =>
                  let off := off + 4 in
                  match lz4_block_decompress (py_slice raw off (off + c_size))
                          u_size (Some prev_dict) with
                  | None => Some Raise
                  | Some chunk =>
                      bv41_loop fuel' raw (off + c_size) chunk (bv_parts ++ [chunk])
                  end
              end
          end
      else Some (Ret bv_parts)
  end.

(** The body of the [try] of method 0: [b"".join(bv_parts)] after the
    loop. *)
Definition bv41_decode (raw : bytes) : Result bytes :=
  match bv41_loop (S (length raw)) raw 0 [] [] with
  | Some r => bv_parts ← r; Ret (concat bv_parts)
  | None => Raise
  end.

(** Methods 0 to 4, each taken only while [pixels is None]. *)
Definition method0 (raw : bytes) : option bytes :=
  if bytes_eqb (py_slice raw 0 4) bv41_magic
  then match bv41_decode raw with
       | Ret pixels => Some pixels
       | Raise => None
       end
  else None.

Definition method1 (raw : bytes) (expected_size : Z) : option bytes :=
  if len raw =? expected_size then Some raw else None.

Definition method2 (raw : bytes) (expected_size : Z) : option bytes :=
  lz4_block_decompress raw expected_size None.

Definition method3 (raw : bytes) (expected_size : Z) : option bytes :=
  lzo_decompress raw expected_size.

Definition method4 (raw : bytes) : option bytes :=
  zlib_decompress raw.

(** [pixels] after the five methods. *)
Definition tile_pixels (raw : bytes) (expected_size : Z) : option bytes :=
  let pixels := method0 raw in
  let pixels := match pixels with
                | None => method1 raw expected_size
                | Some _ => pixels
                end in
  let pixels := match pixels with
                | None => method2 raw expected_size
                | Some _ => pixels
                end in
  let pixels := match pixels with
                | None => method3 raw expected_size
                | Some _ => pixels
                end in
  let pixels := match pixels with
                | None => method4 raw
                | Some _ => pixels
                end in
  pixels.

(** [if pixels is None or len(pixels) != expected_size: continue] *)
Definition decode_tile (raw : bytes) (expected_size : Z) : option bytes :=
  match tile_pixels raw expected_size with
  | Some pixels => if len pixels =? expected_size then Some pixels else None
  | None => None
  end.

(** ** Layer images *)

Definition _get_tile_size (pf : ProcreateFile) : Result Z :=
  root ← _get_root_object pf;
  match usable_root root with
  | Some root =>
      ts ← _get_int root ["tileSize"; "SilicaDocumentArchiveTileSize"] 0;
      if 0 <? ts then Ret ts else Ret 256
  | None => Ret 256
  end.

(** [n.lower().endswith((".chunk", ".lz4"))] *)
Definition has_tile_ext (n : string) : bool :=
  endswith (lower n) ".chunk" || endswith (lower n) ".lz4".

(** Strip any known tile extension. *)
Definition strip_tile_ext (basename : string) : string :=
  if endswith (lower basename) ".chunk" then str_drop_last 6 basename
  else if endswith (lower basename) ".lz4" then str_drop_last 4 basename
  else basename.

(** The column and row a tile name gives; [None] where the loop body
    reaches a [continue]. *)
Definition tile_coords (name_part : string) : option (Z * Z) :=
  parts ← (if has_char "~" name_part then Some (str_split "~" name_part)
           else if has_char "_" name_part then Some (str_split "_" name_part)
           else None);
  match parts with
  | [p0; p1] => col ← int_of_str p0; row ← int_of_str p1; Some (col, row)
  | _ => None
  end.

(** One iteration of the tile loop up to the paste: the tile's column,
    row and pixel bytes, or [None] when the entry is skipped. *)
Definition load_tile (z : ZipFile) (prefix : string) (tile_size : Z)
    (chunk_path : string) : option (Z * Z * bytes) :=
  let basename := str_from (String.length prefix) chunk_path in
  cr ← tile_coords (strip_tile_ext basename);
  raw ← zip_read z chunk_path;
  pixels ← decode_tile raw (tile_size * tile_size * 4);
  Some (fst cr, snd cr, pixels).

(** The [for chunk_path in chunk_files] loop: the working image and
    [loaded_any]. The paste is outside every [try]: its exception ends
    the loop and the call. *)
Fixpoint paste_tiles (z : ZipFile) (prefix : string) (tile_size : Z)
    (chunk_files : list string) (layer_img : Image) (loaded_any : bool)
  : Result (Image * bool) :=
  match chunk_files with
  | [] => Ret (layer_img, loaded_any)
  | chunk_path :: rest =>
      match load_tile z prefix tile_size chunk_path with
      | None => paste_tiles z prefix tile_size rest layer_img loaded_any
      | Some (col, row, pixels) =>
          let tile_img := Image_frombytes_BGRA tile_size pixels in
          match paste layer_img tile_img (col * tile_size, row * tile_size) with
          | Ret layer_img => paste_tiles z prefix tile_size rest layer_img true
          | Raise => Raise
          end
      end
  end.

(** The tile entries of a layer: names under [uuid/] with a tile
    extension. *)
Definition chunk_files_of (z : ZipFile) (prefix : string) : list string :=
  filter (fun n => startswith n prefix && has_tile_ext n) (namelist z).

Definition load_layer_image (pf : ProcreateFile) (layer_index : Z)
  : Result (option Image) :=
  match _zip pf with
  | None => Ret None
  | Some z =>
      if (layer_index <? 0) || (len (layers pf) <=? layer_index) then Ret None
      else
        layer ← of_option (nth_error (layers pf) (Z.to_nat layer_index));
        if String.eqb (uuid layer) "" then Ret None
        else
          let prefix := String.append (uuid layer) "/" in
          let chunk_files := chunk_files_of z prefix in
          match chunk_files with
          | [] => Ret None
          | _ =>
              tile_size ← _get_tile_size pf;
              let tile_size := if tile_size <=? 0 then 256 else tile_size in
              let w := canvas_width pf in
              let h := canvas_height pf in
              if (w <=? 0) || (h <=? 0) then Ret None
              else
                let cols := Z.max 1 ((w + tile_size - 1) / tile_size) in
                let rows := Z.max 1 ((h + tile_size - 1) / tile_size) in
                let layer_img :=
                  Image_new (cols * tile_size, rows * tile_size) (mkRGBA 0 0 0 0) in
                match paste_tiles z prefix tile_size chunk_files layer_img false with
                | Raise => Raise
                | Ret (layer_img, loaded_any) =>
                    if negb loaded_any then Ret None
                    else if negb (size_eqb (Image_size layer_img) (w, h))
                         then Ret (Some (crop layer_img 0 0 w h))
                         else Ret (Some layer_img)
                end
          end
  end.

(** ** Compositing *)

(** [lambda x, op=layer.opacity: int(x * op)] *)
Definition scale_by (op : float) (x : Z) : Result Z :=
  f ← int_times_float x op; int_of_float f.

(** The body of [if layer.opacity < 1.0]. *)
Definition apply_opacity (op : float) (layer_img : Image) : Result Image :=
  let '(r, g, b, a) := split_bands layer_img in
  a ← point a (scale_by op);
  Ret (merge_bands r g b a).

(** The visibility used for layer [i]: the override when the mapping is
    non-empty and has the index, the layer's own flag otherwise. *)
Definition effective_visible (visibility_overrides : option (gmap Z bool))
    (i : Z) (layer : ProcreateLayer) : bool :=
  match visibility_overrides with
  | Some ov =>
      if bool_decide (ov = ∅) then visible layer
      else match ov !! i with
           | Some v => v
           | None => visible layer
           end
  | None => visible layer
  end.

(** [for i, layer in enumerate(self.layers)], from index [i] on. *)
Fixpoint composite_loop (pf : ProcreateFile)
    (visibility_overrides : option (gmap Z bool)) (i : Z)
    (ls : list ProcreateLayer) (result : Image) (loaded_any : bool)
  : Result (Image * bool) :=
  match ls with
  | [] => Ret (result, loaded_any)
  | layer :: rest =>
      if negb (effective_visible visibility_overrides i layer)
      then composite_loop pf visibility_overrides (i + 1) rest result loaded_any
      else
        layer_img ← load_layer_image pf i;
        match layer_img with
        | None => composite_loop pf visibility_overrides (i + 1) rest result loaded_any
        | Some layer_img =>
            (* Apply layer opacity *)
            layer_img ← (if PrimFloat.ltb (opacity layer) 1%float
                         then apply_opacity (opacity layer) layer_img
                         else Ret layer_img);
            result ← alpha_composite result layer_img;
            composite_loop pf visibility_overrides (i + 1) rest result true
        end
  end.

Definition composite_layers (pf : ProcreateFile)
    (visibility_overrides : option (gmap Z bool)) : Result (option Image) :=
  match layers pf with
  | [] => Ret None
  | _ =>
      let w := canvas_width pf in
      let h := canvas_height pf in
      if (w <=? 0) || (h <=? 0) then Ret None
      else
        let result := Image_new (w, h) (mkRGBA 255 255 255 0) in
        match composite_loop pf visibility_overrides 0 (layers pf) result false with
        | Ret (result, loaded_any) => Ret (if loaded_any then Some result else None)
        | Raise => Raise
        end
  end.

End Reader.

(* ================================================================== *)
(** * A reference run-time for concrete evaluation                     *)
(* ================================================================== *)

(** The properties below hold for every [Runtime]. To evaluate the reader
    on concrete inputs, this section fixes one: a decoder of the LZ4 block
    format for [lz4.block], and finite tables for what the property-list
    parser and the image decoder return on the sample entries. *)

Module LZ4.

(** A length of 15 in a token nibble is continued by further bytes, each
    added to the length, up to and including the first byte below 255. *)
Fixpoint read_len (src : bytes) (acc : Z) : option (Z * bytes) :=
  match src with
  | [] => None
  | b :: r =>
      if byte_val b =? 255 then read_len r (acc + 255)
      else Some (acc + byte_val b, r)
  end.

(** Copy [n] bytes starting [offset] bytes before the end of the history;
    source and destination may overlap. *)
Fixpoint copy_match (n : nat) (offset : nat) (hist : bytes) : option bytes :=
  match n with
  | O => Some hist
  | S n' =>
      if (offset <=? length hist)%nat then
        match nth_error hist (length hist - offset) with
        | Some b => copy_match n' offset (hist ++ [b])
        | None => None
        end
      else None
  end.

(** The sequences of a block: token, literals, and, unless the input ends
    after the literals, a two-byte little-endian offset and a match of at
    least four bytes. [hist] is the dictionary followed by the output so
    far. *)
Fixpoint sequences (fuel : nat) (src : bytes) (hist : bytes) : option bytes :=
  match fuel with
  | O => None
  | S fuel' =>
      match src with
      | [] => None
      | token :: r =>
          let t := byte_val token in
          match (if t / 16 =? 15 then read_len r 15 else Some (t / 16, r)) with
          | None => None
          | Some (ll, r) =>
              if len r <? ll then None
              else
                let hist := hist ++ firstn (Z.to_nat ll) r in
                match skipn (Z.to_nat ll) r with
                | [] => Some hist
                | o0 :: o1 :: r =>
                    let offset := byte_val o0 + 256 * byte_val o1 in
                    if offset =? 0 then None
                    else
                      match (if t mod 16 =? 15 then read_len r 15
                             else Some (t mod 16, r)) with
                      | None => None
                      | Some (ml, r) =>
                          match copy_match (Z.to_nat (ml + 4)) (Z.to_nat offset) hist with
                          | None => None
                          | Some hist => sequences fuel' r hist
                          end
                      end
                | _ => None
                end
          end
      end
  end.

(** Decompression of one block into at most [uncompressed_size] bytes,
    with an optional dictionary that matches may reach into. The size is
    a C [int] in the library: a size of [2 ^ 31] or more is refused. The
    output may be shorter than [uncompressed_size], which is the room
    given to the decoder. The restrictions the library's decoder puts on
    the end of a block (a sequence with a match needs twelve bytes of
    room behind its literals, a match ends at least five bytes before the
    end of the room) are not reproduced, so this decoder also decodes
    some blocks that the library refuses for lack of room. *)
Definition decompress (source : bytes) (uncompressed_size : Z)
    (dict : option bytes) : option bytes :=
  let d := default [] dict in
  if (uncompressed_size <? 0) || (2 ^ 31 <=? uncompressed_size) then None
  else
    match sequences (S (length source)) source d with
    | Some hist =>
        let out := skipn (length d) hist in
        if len out <=? uncompressed_size then Some out else None
    | None => None
    end.

End LZ4.

(** A table from entry contents to what a parser returns for them. *)
Fixpoint table_lookup {A} (t : list (bytes * A)) (data : bytes) : option A :=
  match t with
  | [] => None
  | (k, v) :: r => if bytes_eqb k data then Some v else table_lookup r data
  end.

(** A ZIP archive given by its entries, in order. A name stored more
    than once is listed each time and read from its last entry. *)
Definition zip_of (entries : list (string * bytes)) : ZipFile :=
  mkZipFile (map fst entries)
    (fun n => snd <$> find (fun e => String.eqb (fst e) n) (rev entries)).

(** The run-time of the examples: the LZ4 block decoder above; no [lzo]
    module; a [zlib] that rejects its input (no sample entry starts a zlib
    stream); parsers given by the tables [plists] and [images]. *)
Definition sample_runtime (plists : list (bytes * PValue))
    (images : list (bytes * Image)) : Runtime :=
  {| lz4_block_decompress := LZ4.decompress;
     lzo_decompress := fun _ _ => None;
     zlib_decompress := fun _ => None;
     plistlib_loads := table_lookup plists;
     Image_open := table_lookup images |}.

(* ================================================================== *)
(** * Notions used to state the properties                             *)
(* ================================================================== *)

(** ** The chained-block stream format *)

Definition byte_of (z : Z) : byte := default x00 (Byte.of_N (Z.to_N z)).

(** Four bytes, little-endian. *)
Definition encode_le32 (n : Z) : bytes :=
  [byte_of (n mod 256); byte_of (n / 256 mod 256);
   byte_of (n / 65536 mod 256); byte_of (n / 16777216 mod 256)].

(** A sub-block as the stream stores it: the magic tag, the declared
    uncompressed size, the compressed size, the compressed payload. *)
Definition encode_block (u_size : Z) (payload : bytes) : bytes :=
  bv41_magic ++ encode_le32 u_size ++ encode_le32 (len payload) ++ payload.

(** A sequence of sub-blocks followed by [rest]. *)
Fixpoint encode_stream (blocks : list (Z * bytes)) (rest : bytes) : bytes :=
  match blocks with
  | [] => rest
  | (u_size, payload) :: r => encode_block u_size payload ++ encode_stream r rest
  end.

(** Sizes that fit their four-byte fields. *)
Definition block_fits (b : Z * bytes) : Prop :=
  0 <= fst b < 2 ^ 32 /\ len (snd b) < 2 ^ 32.

(** What may follow the last sub-block: nothing, or the terminator tag
    and anything after it. *)
Definition stream_end (rest : bytes) : Prop :=
  rest = [] \/ exists trailer, rest = bv41_end ++ trailer.

(** Chained decompression in the words of the specification: the first
    sub-block is decompressed with the dictionary [dict], every later one
    with the decompressed output of the sub-block just before it. *)
Fixpoint chained_decompress `{RT : Runtime} (dict : bytes)
    (blocks : list (Z * bytes)) : Result (list bytes) :=
  match blocks with
  | [] => Ret []
  | (u_size, payload) :: r =>
      chunk ← of_option (lz4_block_decompress payload u_size (Some dict));
      chunks ← chained_decompress chunk r;
      Ret (chunk :: chunks)
  end.

(** ** The decode chain with a length check at every step *)

(** A step whose output does not have the expected length counts as
    failed. *)
Definition checked (expected_size : Z) (out : option bytes) : option bytes :=
  match out with
  | Some p => if len p =? expected_size then Some p else None
  | None => None
  end.

(** The chain in the words of the specification: the methods in order,
    each one's output checked against the expected size, the next one
    attempted when the check fails. *)
Definition decode_tile_per_step `{RT : Runtime} (raw : bytes)
    (expected_size : Z) : option bytes :=
  match checked expected_size (method0 raw) with
  | Some p => Some p
  | None =>
  match checked expected_size (method1 raw expected_size) with
  | Some p => Some p
  | None =>
  match checked expected_size (method2 raw expected_size) with
  | Some p => Some p
  | None =>
  match checked expected_size (method3 raw expected_size) with
  | Some p => Some p
  | None => checked expected_size (method4 raw)
  end end end end.

(** The first method, in order, that returns without raising, and what it
    returns. *)
Definition first_output `{RT : Runtime} (raw : bytes) (expected_size : Z)
  : option bytes :=
  match method0 raw with
  | Some p => Some p
  | None =>
  match method1 raw expected_size with
  | Some p => Some p
  | None =>
  match method2 raw expected_size with
  | Some p => Some p
  | None =>
  match method3 raw expected_size with
  | Some p => Some p
  | None => method4 raw
  end end end end.

(** ** Images *)



(** The tiles of a layer that decode: column, row and pixel bytes of
    every entry the tile loop pastes, in order. *)
Definition decoded_tiles `{RT : Runtime} (z : ZipFile) (prefix : string)
    (tile_size : Z) : list (Z * Z * bytes) :=
  omap (load_tile z prefix tile_size) (chunk_files_of z prefix).

(** The tile size [load_layer_image] works with. *)
Definition effective_tile_size (ts : Z) : Z := if ts <=? 0 then 256 else ts.



(** The paste box of a decoded tile fits the imaging library's C
    integers. *)
Definition box_fits (tile_size : Z) (tile : Z * Z * bytes) : bool :=
  let '(col, row, _) := tile in
  c_int (col * tile_size) && c_int (row * tile_size)
  && c_int (col * tile_size + tile_size) && c_int (row * tile_size + tile_size).

(** ** Visibility overrides *)

(** The mapping hides every layer of the document. *)
Definition hides_all (ov : gmap Z bool) (pf : ProcreateFile) : Prop :=
  forall i, 0 <= i < len (layers pf) -> ov !! i = Some false.

(** The mapping [{i: False for i in range(n)}] the viewer builds. *)
Fixpoint hide_first (n : nat) : gmap Z bool :=
  match n with
  | O => ∅
  | S k => <[Z.of_nat k := false]> (hide_first k)
  end.

(** Compositing under the layers' own flags only: the loop with
    [visible = layer.visible]. *)
Fixpoint native_loop `{RT : Runtime} (pf : ProcreateFile) (i : Z)
    (ls : list ProcreateLayer) (result : Image) (loaded_any : bool)
  : Result (Image * bool) :=
  match ls with
  | [] => Ret (result, loaded_any)
  | layer :: rest =>
      if negb (visible layer)
      then native_loop pf (i + 1) rest result loaded_any
      else
        layer_img ← load_layer_image pf i;
        match layer_img with
        | None => native_loop pf (i + 1) rest result loaded_any
        | Some layer_img =>
            layer_img ← (if PrimFloat.ltb (opacity layer) 1%float
                         then apply_opacity (opacity layer) layer_img
                         else Ret layer_img);
            result ← alpha_composite result layer_img;
            native_loop pf (i + 1) rest result true
        end
  end.

Definition composite_native `{RT : Runtime} (pf : ProcreateFile)
  : Result (option Image) :=
  match layers pf with
  | [] => Ret None
  | _ =>
      let w := canvas_width pf in
      let h := canvas_height pf in
      if (w <=? 0) || (h <=? 0) then Ret None
      else
        match native_loop pf 0 (layers pf)
                (Image_new (w, h) (mkRGBA 255 255 255 0)) false with
        | Ret (result, loaded_any) => Ret (if loaded_any then Some result else None)
        | Raise => Raise
        end
  end.

(* ================================================================== *)
(** * Sample documents                                                 *)
(* ================================================================== *)

Module Samples.

(** Contents of the sample entries. The metadata and thumbnail entries are
    stand-ins that the table parsers of [rt] recognise; the tile entries
    are real tile payloads. *)
Definition doc_bytes : bytes := [x62; x70; x6c; x69; x73; x74; x30; x30; x01].
Definition doc_half_bytes : bytes := [x62; x70; x6c; x69; x73; x74; x30; x30; x02].
Definition doc_string_bytes : bytes := [x62; x70; x6c; x69; x73; x74; x30; x30; x03].
Definition png_bytes : bytes := [x89; x50; x4e; x47].
Definition garbage : bytes := [xde; xad; xbe; xef].

(** A 2x2 tile stored uncompressed: four opaque red pixels, each blue,
    green, red, alpha. *)
Definition red_tile : bytes :=
  [x00; x00; xff; xff; x00; x00; xff; xff;
   x00; x00; xff; xff; x00; x00; xff; xff].

(** A tile entry no method decodes. *)
Definition bad_tile : bytes := [x01; x02; x03].

(** A keyed archive: a 2x4 canvas with 2x2 tiles and one layer "L1" of
    opacity [op]. *)
Definition archive (op : float) : PValue :=
  PDict
    [("$top", PDict [("root", PUID 1)]);
     ("$objects",
      PList
        [PStr "$null";
         PDict [("SilicaDocumentArchiveDimensionWidth", PInt 2);
                ("SilicaDocumentArchiveDimensionHeight", PInt 4);
                ("tileSize", PInt 2);
                ("SilicaDocumentArchiveLayers", PUID 2)];
         PDict [("NS.objects", PList [PUID 3])];
         PDict [("name", PUID 4); ("UUID", PUID 5);
                ("contentsOpacity", PReal op)];
         PStr "Sketch";
         PStr "L1"])].

Definition thumb : Image := Image_new (100, 80) (mkRGBA 9 9 9 255).

Definition rt : Runtime :=
  sample_runtime
    [(doc_bytes, archive 1%float); (doc_half_bytes, archive 0.5%float);
     (doc_string_bytes, PStr "not an archive")]
    [(png_bytes, thumb)].

(** A container with a thumbnail, the metadata entry [doc] and two tile
    entries for layer "L1": tile (0, 0) decodes, tile (0, 1) does not. *)
Definition drawing_zip (doc : bytes) : ZipFile :=
  zip_of [("QuickLook/Thumbnail.png", png_bytes);
          ("Document.archive", doc);
          ("L1/0_0.chunk", red_tile);
          ("L1/0_1.chunk", bad_tile)].

(** The opened document, or the initial attribute values when opening
    raises. *)
Definition opened (doc : bytes) : ProcreateFile :=
  match ProcreateFile_open (RT := rt) (Archive (drawing_zip doc)) with
  | Ret pf => pf
  | Raise => initial_file
  end.

Definition drawing : ProcreateFile := opened doc_bytes.
Definition drawing_half : ProcreateFile := opened doc_half_bytes.

(** The image of the first layer of a document (an empty image when the
    layer has none). *)
Definition first_layer_image (pf : ProcreateFile) : Image :=
  match load_layer_image (RT := rt) pf 0 with
  | Ret (Some im) => im
  | _ => Image_new (0, 0) (mkRGBA 0 0 0 0)
  end.

(** Two sub-blocks: the second consists of a match that reaches four
    bytes back into the dictionary, followed by five literals. Its
    declared size, 21, is the room given to the decompressor, which
    returns the nine bytes it decodes: the library wants twelve bytes of
    room behind the start of a sequence that has a match. *)
Definition two_blocks : list (Z * bytes) :=
  [(4, [x40; x61; x62; x63; x64]);
   (21, [x00; x04; x00; x50; x76; x77; x78; x79; x7a])].

(** A sub-block that declares an uncompressed size of one gibibyte and
    holds one literal byte. *)
Definition huge_block : bytes := encode_block 1073741824 [x10; x41].

(** A 16-byte entry: a chained-block header, a one-literal payload and two
    further bytes. Its length is the expected size of a 2x2 tile. *)
Definition short_chained : bytes :=
  encode_block 1 [x10; x41] ++ [x00; x00].

End Samples.

(* ================================================================== *)
(** * Further notions for the statements                               *)
(* ================================================================== *)

(** ** Pixels *)

Definition valid_channel (v : Z) : Prop := 0 <= v <= 255.

Definition valid_pixel (p : RGBA) : Prop :=
  valid_channel (chR p) /\ valid_channel (chG p) /\ valid_channel (chB p)
  /\ valid_channel (chA p).

Definition valid_image (im : Image) : Prop :=
  forall x y, valid_pixel (pixel im x y).

(** The colour [composite_layers] starts from. *)
Definition backdrop : RGBA := mkRGBA 255 255 255 0.

(** [p] with its alpha channel replaced. *)
Definition with_alpha (p : RGBA) (a : Z) : RGBA :=
  mkRGBA (chR p) (chG p) (chB p) a.

(** The values [0..255] a lookup table is built from. *)
Definition levels : list Z := map Z.of_nat (seq 0 256).

(** The computation returned [v]. *)
Definition result_is (r : Result Z) (v : Z) : bool :=
  match r with
  | Ret x => x =? v
  | Raise => false
  end.

(** The pixel of a returned image. *)
Definition pixel_of (r : Result (option Image)) (x y : Z) : option RGBA :=
  match r with
  | Ret (Some im) => Some (pixel im x y)
  | _ => None
  end.

(** The call returned an image of size [w] x [h] whose alpha channel is
    zero everywhere on it. *)
Definition is_transparent_canvas (r : Result (option Image)) (w h : Z) : Prop :=
  exists im, r = Ret (Some im) /\ Image_size im = (w, h)
             /\ forall x y, 0 <= x < w -> 0 <= y < h -> chA (pixel im x y) = 0.

(** ** The composite in the words of the specification *)

(** [int(a * opacity)] clipped to 8 bits ([0] stands in where [int]
    raises). *)
Definition scaled_alpha (op : float) (a : Z) : Z :=
  match scale_by op a with
  | Ret v => clip8 v
  | Raise => 0
  end.

(** [int(a * opacity)] returns for every 8-bit value [a]. *)
Definition opacity_applies (op : float) : bool :=
  forallb (fun a => match scale_by op a with Ret _ => true | Raise => false end)
          levels.

(** What a layer whose image is [L] contributes to the composite: [L]
    itself when its opacity is not below 1.0; otherwise [L] with every
    alpha value [a] replaced by [int(a * opacity)] and the red, green and
    blue channels untouched. *)
Definition contribution (layer : ProcreateLayer) (L : Image) : Result Image :=
  let op := opacity layer in
  if PrimFloat.ltb op 1%float then
    if opacity_applies op then
      Ret (mkImage (width L) (height L) (fun x y =>
             with_alpha (pixel L x y) (scaled_alpha op (chA (pixel L x y)))))
    else Raise
  else Ret L.

(** Alpha-over blending, bottom to top, of the contributions of the
    layers that are visible and have an image. *)
Fixpoint blend_contributions `{RT : Runtime} (pf : ProcreateFile)
    (visibility_overrides : option (gmap Z bool)) (i : Z)
    (ls : list ProcreateLayer) (result : Image) (loaded_any : bool)
  : Result (Image * bool) :=
  match ls with
  | [] => Ret (result, loaded_any)
  | layer :: rest =>
      if effective_visible visibility_overrides i layer then
        match load_layer_image pf i with
        | Raise => Raise
        | Ret None =>
            blend_contributions pf visibility_overrides (i + 1) rest result loaded_any
        | Ret (Some L) =>
            match contribution layer L with
            | Raise => Raise
            | Ret c =>
                match alpha_composite result c with
                | Raise => Raise
                | Ret result =>
                    blend_contributions pf visibility_overrides (i + 1) rest result true
                end
            end
        end
      else blend_contributions pf visibility_overrides (i + 1) rest result loaded_any
  end.

Definition composite_of_contributions `{RT : Runtime} (pf : ProcreateFile)
    (visibility_overrides : option (gmap Z bool)) : Result (option Image) :=
  match layers pf with
  | [] => Ret None
  | _ =>
      let w := canvas_width pf in
      let h := canvas_height pf in
      if (w <=? 0) || (h <=? 0) then Ret None
      else
        match blend_contributions pf visibility_overrides 0 (layers pf)
                (Image_new (w, h) backdrop) false with
        | Ret (result, loaded_any) => Ret (if loaded_any then Some result else None)
        | Raise => Raise
        end
  end.

(** Two images of the same size with the same pixels. *)
Definition same_image (a b : Image) : Prop :=
  Image_size a = Image_size b /\ forall x y, pixel a x y = pixel b x y.

(** Two calls end the same way: both raise, both return [None], or both
    return the same image. *)
Definition same_outcome (r s : Result (option Image)) : Prop :=
  match r, s with
  | Ret (Some a), Ret (Some b) => same_image a b
  | Ret None, Ret None => True
  | Raise, Raise => True
  | _, _ => False
  end.

(** ** Opened documents *)

(** The entry at [path] is missing, unreadable, or not a property list. *)
Definition unparsable `{RT : Runtime} (z : ZipFile) (path : string) : Prop :=
  (data ← zip_read z path; plistlib_loads data) = None.

(** A document on which no metadata was found: the attributes [_load]
    leaves at their initial values. *)
Definition blank_document (z : ZipFile) (pf : ProcreateFile) : Prop :=
  _zip pf = Some z /\ _document_archive pf = None
  /\ layers pf = [] /\ layer_count pf = 0
  /\ canvas_width pf = 0 /\ canvas_height pf = 0.

(** What is observed of an opened document: the thumbnail's size, the
    canvas size, the number of layers; [None] when opening raised. *)
Definition open_summary (r : Result ProcreateFile)
  : option (option (Z * Z) * (Z * Z) * nat) :=
  match r with
  | Ret pf => Some (Image_size <$> thumbnail pf,
                    (canvas_width pf, canvas_height pf), length (layers pf))
  | Raise => None
  end.

(* ================================================================== *)
(** * The remaining public operations                                  *)
(* ================================================================== *)

(** [get_best_image]: [self.composite or self.thumbnail] *)
Definition get_best_image (pf : ProcreateFile) : option Image :=
  match composite pf with
  | Some img => Some img
  | None => thumbnail pf
  end.

(** [str(z)] for an integer, as an f-string prints it. *)
Definition str_of_int (z : Z) : string :=
  if z <? 0 then String.append "-" (str_of_nat (Z.to_nat (- z)))
  else str_of_nat (Z.to_nat z).

(** The class attribute [BLEND_MODES]. *)
Definition BLEND_MODES : gmap Z string :=
  list_to_map
    [(0, "Normal"); (1, "Multiply"); (2, "Screen"); (3, "Overlay");
     (4, "Darken"); (5, "Lighten"); (6, "Color Dodge"); (7, "Color Burn");
     (8, "Soft Light"); (9, "Hard Light"); (10, "Difference");
     (11, "Exclusion"); (12, "Hue"); (13, "Saturation"); (14, "Color");
     (15, "Luminosity"); (16, "Add"); (17, "Linear Burn");
     (18, "Vivid Light"); (19, "Linear Light"); (20, "Pin Light");
     (21, "Hard Mix"); (22, "Subtract"); (23, "Divide")].

(** [get_blend_mode_name]: [BLEND_MODES.get(mode, f"Unknown ({mode})")] *)
Definition get_blend_mode_name (mode : Z) : string :=
  default (String.append "Unknown (" (String.append (str_of_int mode) ")"))
          (BLEND_MODES !! mode).

(** [get_file_list] *)
Definition get_file_list (pf : ProcreateFile) : list string :=
  match _zip pf with
  | Some z => namelist z
  | None => []
  end.

(** The archive has an entry of that name: [ZipFile.read] raises
    [KeyError] exactly when it has none. *)
Definition has_entry (z : ZipFile) (n : string) : bool :=
  existsb (String.eqb n) (namelist z).

(** The loop of [extract_thumbnail_bytes]: only the [KeyError] of a
    missing entry is caught; an entry that is present and cannot be read
    raises out of the call. *)
Fixpoint read_first_present (z : ZipFile) (paths : list string)
  : Result (option bytes) :=
  match paths with
  | [] => Ret None
  | path :: rest =>
      if has_entry z path
      then data ← of_option (zip_read z path); Ret (Some data)
      else read_first_present z rest
  end.

Definition extract_thumbnail_bytes (pf : ProcreateFile) : Result (option bytes) :=
  match _zip pf with
  | None => Ret None
  | Some z =>
      read_first_present z
        ["QuickLook/Thumbnail.png"; "QuickLook/thumbnail.png"; "Thumbnail.png"]
  end.

(** [close]: the handle is released and forgotten. *)
Definition close (pf : ProcreateFile) : ProcreateFile :=
  match _zip pf with
  | Some _ => set_zip None pf
  | None => pf
  end.

(** ** Further notions *)

(** An archive model is consistent when a name that is not listed cannot
    be read. *)
Definition zip_consistent (z : ZipFile) : Prop :=
  forall n, has_entry z n = false -> zip_read z n = None.

(** Four bytes, big-endian, two's complement: what [struct.pack(">i", z)]
    gives. *)
Definition encode_be_i32 (z : Z) : bytes :=
  let u := z mod 2 ^ 32 in
  [byte_of (u / 16777216 mod 256); byte_of (u / 65536 mod 256);
   byte_of (u / 256 mod 256); byte_of (u mod 256)].

(** A key [_get_int] passes over: absent, or holding a value that is
    neither a number nor a blob of at least four bytes. *)
Definition passed_over (d : pdict) (key : string) : Prop :=
  match dict_get d key with
  | None => True
  | Some (PBytes b) => len b < 4
  | Some v => is_number v = false
  end.


(** The names the tile loop understands: prefix, column, separator, row,
    extension. *)
Definition tile_name (prefix : string) (col : nat) (sep : ascii) (row : nat)
    (ext : string) : string :=
  String.append prefix
    (String.append (str_of_nat col)
       (String sep (String.append (str_of_nat row) ext))).

(** ** Further sample containers *)

(** A container whose metadata entry has the lower-case name only. *)
Definition lowercase_zip : ZipFile :=
  zip_of [("document.archive", Samples.doc_bytes)].

(** A container with a thumbnail under the second candidate name and a
    preview image. *)
Definition preview_zip : ZipFile :=
  zip_of [("QuickLook/thumbnail.png", Samples.png_bytes);
          ("QuickLook/Preview.png", Samples.png_bytes)].





(** The sample container with a further tile entry for column [2 ^ 30]:
    with 2x2 tiles its paste box starts at [2 ^ 31]. *)
Definition far_zip : ZipFile :=
  zip_of [("QuickLook/Thumbnail.png", Samples.png_bytes);
          ("Document.archive", Samples.doc_bytes);
          ("L1/0_0.chunk", Samples.red_tile);
          ("L1/1073741824_0.chunk", Samples.red_tile)].

Definition far_drawing : ProcreateFile :=
  match ProcreateFile_open (RT := Samples.rt) (Archive far_zip) with
  | Ret pf => pf
  | Raise => initial_file
  end.

(** A container whose first metadata entry parses to a string and whose
    second parses to a keyed archive. *)
Definition two_names_zip : ZipFile :=
  zip_of [("Document.archive", Samples.doc_string_bytes);
          ("document.archive", Samples.doc_bytes)].

(** A document whose root object has a DPI and no dimension field, with
    the sample thumbnail loaded. *)
Definition bare_file : ProcreateFile :=
  set_archive_objects
    (PList [PStr "$null"; PDict [("SilicaDocumentArchiveDPI", PInt 300)]])
    (set_document_archive
       (Some (PDict [("$top", PDict [("root", PUID 1)])]))
       (set_thumbnail (Some Samples.thumb) initial_file)).

(** A string of decimal digits only. *)
Fixpoint all_digits (s : string) : bool :=
  match s with
  | EmptyString => true
  | String c r => is_digit c && all_digits r
  end.

(* ================================================================== *)
(** * Properties                                                       *)
(* ================================================================== *)

(** Reduce a bind whose first computation is a known result. *)
Ltac result_step := cbn [mbind Result_bind mret Result_ret of_option].

(** Close a goal about concrete integers by evaluation. *)
Ltac by_evaluation :=
  vm_compute; repeat split; first [reflexivity | discriminate].

(** ** Lists and bytes *)

Lemma len_nonneg {A} (l : list A) : 0 <= len l.
Proof. unfold len. lia. Qed.

Lemma len_app {A} (a b : list A) : len (a ++ b) = len a + len b.
Proof. unfold len. rewrite length_app. lia. Qed.

Lemma bytes_eqb_eq (a b : bytes) : bytes_eqb a b = true <-> a = b.
Proof.
  revert b. induction a as [|x a IH]; intros [|y b]; cbn; try (split; congruence).
  rewrite andb_true_iff, IH. split.
  - intros [Hxy ->]. apply Byte.byte_dec_bl in Hxy. congruence.
  - intros [= -> ->]. split; [apply Byte.byte_dec_lb|]; reflexivity.
Qed.

Lemma bytes_eqb_refl (a : bytes) : bytes_eqb a a = true.
Proof. apply bytes_eqb_eq. reflexivity. Qed.

Lemma byte_val_range (b : byte) : 0 <= byte_val b < 256.
Proof. unfold byte_val. pose proof (Byte.to_N_bounded b). lia. Qed.

Lemma byte_val_of (z : Z) : 0 <= z < 256 -> byte_val (byte_of z) = z.
Proof.
  intros Hz. unfold byte_val, byte_of.
  destruct (Byte.of_N (Z.to_N z)) as [b|] eqn:E.
  - cbn. apply Byte.to_of_N in E. lia.
  - apply Byte.of_N_None_iff in E. lia.
Qed.

(** The slice that starts where [pre] ends and spans [mid]. *)
Lemma py_slice_app {A} (pre mid post : list A) (a b : Z) :
  a = len pre -> b = a + len mid ->
  py_slice (pre ++ mid ++ post) a b = mid.
Proof.
  intros -> ->. unfold py_slice. rewrite !len_app.
  pose proof (len_nonneg pre). pose proof (len_nonneg mid). pose proof (len_nonneg post).
  rewrite !Z.min_l by lia.
  replace (len pre + len mid - len pre) with (len mid) by lia.
  unfold len. rewrite !Nat2Z.id.
  rewrite drop_app_length. apply take_app_length.
Qed.

(** Reading back a four-byte little-endian field. *)
Lemma unpack_encode_le32 (pre post : bytes) (n off : Z) :
  0 <= n < 2 ^ 32 -> off = len pre ->
  unpack_from_le32 (pre ++ encode_le32 n ++ post) off = Ret n.
Proof.
  intros Hn ->. unfold unpack_from_le32.
  change (2 ^ 32) with 4294967296 in Hn.
  rewrite (py_slice_app pre (encode_le32 n) post) by reflexivity.
  unfold encode_le32.
  rewrite !byte_val_of by (apply Z.mod_pos_bound; lia).
  f_equal.
  replace (n / 65536) with (n / 256 / 256) by (rewrite Z.div_div by lia; reflexivity).
  replace (n / 16777216) with (n / 256 / 256 / 256)
    by (rewrite !Z.div_div by lia; reflexivity).
  pose proof (Z.div_mod n 256 ltac:(lia)) as E0.
  pose proof (Z.div_mod (n / 256) 256 ltac:(lia)) as E1.
  pose proof (Z.div_mod (n / 256 / 256) 256 ltac:(lia)) as E2.
  pose proof (Z.mod_pos_bound n 256 ltac:(lia)).
  pose proof (Z.mod_pos_bound (n / 256) 256 ltac:(lia)).
  pose proof (Z.mod_pos_bound (n / 256 / 256) 256 ltac:(lia)).
  rewrite (Z.mod_small (n / 256 / 256 / 256)) by lia.
  lia.
Qed.

Lemma unpack_from_le32_nonneg (raw : bytes) (off v : Z) :
  unpack_from_le32 raw off = Ret v -> 0 <= v.
Proof.
  unfold unpack_from_le32.
  destruct (py_slice raw off (off + 4)) as [|b0 [|b1 [|b2 [|b3 [|? ?]]]]];
    try discriminate.
  intros [= <-].
  pose proof (byte_val_range b0). pose proof (byte_val_range b1).
  pose proof (byte_val_range b2). pose proof (byte_val_range b3). lia.
Qed.

Lemma size_eqb_eq (a b : Z * Z) : size_eqb a b = true <-> a = b.
Proof.
  destruct a, b. unfold size_eqb. cbn.
  rewrite andb_true_iff, !Z.eqb_eq.
  split; [intros []; congruence | intros [=]; auto].
Qed.

(** A property checked on every 8-bit value holds for each of them. *)
Lemma forall_levels (P : Z -> bool) :
  forallb P levels = true -> forall a, 0 <= a <= 255 -> P a = true.
Proof.
  intros H a Ha. rewrite forallb_forall in H. apply H.
  unfold levels. apply in_map_iff. exists (Z.to_nat a). split; [lia|].
  apply in_seq. lia.
Qed.

Lemma nth_error_levels (a : Z) :
  0 <= a <= 255 -> nth_error levels (Z.to_nat a) = Some a.
Proof.
  intros Ha. unfold levels. rewrite nth_error_map, nth_error_seq.
  replace (Z.to_nat a <? 256)%nat with true by (symmetry; apply Nat.ltb_lt; lia).
  cbn. f_equal. lia.
Qed.

Lemma mapM_nth {A B} (f : A -> Result B) (d : B) (l : list A) :
  forall (out : list B), mapM f l = Ret out ->
  forall i a, nth_error l i = Some a ->
    exists v, f a = Ret v /\ nth i out d = v.
Proof.
  induction l as [|x l IH]; intros out Hout i a Hi; [destruct i; discriminate|].
  cbn [mapM] in Hout.
  destruct (f x) as [b|] eqn:Hfx; [|discriminate].
  cbn [mbind Result_bind] in Hout.
  destruct (mapM f l) as [bs|] eqn:Hbs; [|discriminate].
  cbn [mbind Result_bind] in Hout. injection Hout as <-.
  destruct i as [|i]; cbn in Hi |- *.
  - injection Hi as <-. eauto.
  - apply (IH bs eq_refl i a Hi).
Qed.

Lemma result_is_eq (r : Result Z) (v : Z) : result_is r v = true -> r = Ret v.
Proof.
  destruct r; cbn; [|discriminate]. intros H. apply Z.eqb_eq in H. congruence.
Qed.

(** ** Reference resolution *)

(** C5. For every object graph (the empty one included) and every index
    equal to or beyond its length, resolving the reference, given as a
    plain integer or as a UID, returns [None] and does not raise. *)
Theorem resolve_uid_out_of_range (pf : ProcreateFile) (objects : list PValue)
    (idx : Z) :
  _archive_objects pf = PList objects ->
  len objects <= idx ->
  _resolve_uid pf (Some (PInt idx)) = Ret None
  /\ _resolve_uid pf (Some (PUID idx)) = Ret None.
Proof.
  intros Hobj Hidx.
  assert (Hcore : (if 0 <=? idx
                   then n ← py_len (_archive_objects pf);
                        if idx <? n
                        then v ← py_getitem (_archive_objects pf) idx; Ret (Some v)
                        else Ret None
                   else Ret None) = Ret None).
  { rewrite Hobj. destruct (0 <=? idx); [|reflexivity].
    cbn. destruct (idx <? len objects) eqn:E; [|reflexivity].
    apply Z.ltb_lt in E. lia. }
  split; unfold _resolve_uid, uid_index; exact Hcore.
Qed.

(** On the sample document, whose graph has six objects, index 6 is
    unresolved; so is index 0 on the empty graph. *)
Lemma resolve_uid_out_of_range_witness :
  (len (@nil PValue) <= 0
   /\ _resolve_uid initial_file (Some (PInt 0)) = Ret None
   /\ _resolve_uid initial_file (Some (PUID 0)) = Ret None)
  /\ _resolve_uid Samples.drawing (Some (PInt 6)) = Ret None
  /\ _resolve_uid Samples.drawing (Some (PUID 6)) = Ret None.
Proof.
  split.
  - split; [by_evaluation|].
    apply (resolve_uid_out_of_range initial_file [] 0); [reflexivity | by_evaluation].
  - eapply resolve_uid_out_of_range; [reflexivity | by_evaluation].
Defined.

(** ** The chained-block codec *)

Section ChainedBlocks.

Context `{RT : Runtime}.

Lemma len_encode_block (u : Z) (payload : bytes) :
  len (encode_block u payload) = 12 + len payload.
Proof.
  unfold encode_block, len. rewrite !length_app.
  cbn [length bv41_magic encode_le32]. lia.
Qed.

Lemma length_encode_stream (blocks : list (Z * bytes)) (rest : bytes) :
  (length blocks <= length (encode_stream blocks rest))%nat.
Proof.
  induction blocks as [|[u p] blocks IH]; cbn [encode_stream length]; [lia|].
  unfold encode_block. rewrite !length_app. cbn [length bv41_magic]. lia.
Qed.

(** One iteration on an input that has a sub-block at [off]: the payload
    is decompressed with the declared size and with [prev_dict], and the
    loop goes on behind the sub-block with the new chunk as dictionary. *)
Lemma bv41_loop_block (fuel : nat) (pre tail prev_dict : bytes)
    (bv_parts : list bytes) (u : Z) (payload : bytes) :
  0 <= u < 2 ^ 32 -> len payload < 2 ^ 32 ->
  bv41_loop (S fuel) (pre ++ encode_block u payload ++ tail) (len pre)
    prev_dict bv_parts
  = match lz4_block_decompress payload u (Some prev_dict) with
    | None => Some Raise
    | Some chunk =>
        bv41_loop fuel ((pre ++ encode_block u payload) ++ tail)
          (len (pre ++ encode_block u payload)) chunk (bv_parts ++ [chunk])
    end.
Proof.
  intros Hu Hc. pose proof (len_nonneg payload) as Hp.
  pose proof (len_nonneg tail) as Ht. pose proof (len_nonneg pre) as Hpre.
  set (raw := pre ++ encode_block u payload ++ tail).
  assert (Htag : py_slice raw (len pre) (len pre + 4) = bv41_magic).
  { subst raw. unfold encode_block. rewrite <- !app_assoc.
    apply py_slice_app; reflexivity. }
  assert (Hus : unpack_from_le32 raw (len pre + 4) = Ret u).
  { subst raw. unfold encode_block. rewrite <- !app_assoc.
    rewrite (app_assoc pre bv41_magic).
    apply unpack_encode_le32; [exact Hu|]. rewrite len_app. reflexivity. }
  assert (Hcs : unpack_from_le32 raw (len pre + 4 + 4) = Ret (len payload)).
  { subst raw. unfold encode_block. rewrite <- !app_assoc.
    rewrite (app_assoc pre bv41_magic), (app_assoc (pre ++ bv41_magic)).
    apply unpack_encode_le32; [lia|]. rewrite !len_app. reflexivity. }
  assert (Hpl : py_slice raw (len pre + 4 + 4 + 4)
                  (len pre + 4 + 4 + 4 + len payload) = payload).
  { subst raw. unfold encode_block. rewrite <- !app_assoc.
    rewrite (app_assoc pre bv41_magic), (app_assoc (pre ++ bv41_magic)),
      (app_assoc ((pre ++ bv41_magic) ++ encode_le32 u)).
    apply py_slice_app; [|reflexivity]. rewrite !len_app. reflexivity. }
  cbn [bv41_loop].
  replace (len pre <? len raw) with true
    by (symmetry; apply Z.ltb_lt; subst raw;
        rewrite !len_app, len_encode_block; lia).
  rewrite Htag, Hus, Hcs, Hpl.
  replace (bytes_eqb bv41_magic bv41_end) with false by reflexivity.
  rewrite bytes_eqb_refl. cbn [negb].
  subst raw. rewrite (app_assoc pre).
  replace (len (pre ++ encode_block u payload))
    with (len pre + 4 + 4 + 4 + len payload)
    by (rewrite len_app, len_encode_block; lia).
  reflexivity.
Qed.

(** The loop on a well-formed stream that starts at [off]: it yields the
    parts so far followed by the chained decompression of the sub-blocks,
    for every bound on the iterations above the number of sub-blocks. *)
Lemma bv41_loop_stream (blocks : list (Z * bytes)) (rest : bytes) :
  Forall block_fits blocks -> stream_end rest ->
  forall (fuel : nat) (pre prev_dict : bytes) (bv_parts : list bytes),
    (length blocks < fuel)%nat ->
    bv41_loop fuel (pre ++ encode_stream blocks rest) (len pre) prev_dict bv_parts
    = Some (chunks ← chained_decompress prev_dict blocks; Ret (bv_parts ++ chunks)).
Proof.
  intros Hfit Hend. induction Hfit as [|[u payload] blocks [Hu Hc] Hfit IH];
    intros fuel pre prev_dict bv_parts Hfuel.
  - destruct fuel as [|fuel]; [cbn in Hfuel; lia|].
    cbn [encode_stream chained_decompress bv41_loop]. result_step.
    rewrite app_nil_r.
    destruct Hend as [-> | [trailer ->]].
    + rewrite app_nil_r, Z.ltb_irrefl. reflexivity.
    + destruct (len pre <? _); [|reflexivity].
      rewrite (py_slice_app pre bv41_end trailer) by reflexivity.
      reflexivity.
  - destruct fuel as [|fuel]; [cbn in Hfuel; lia|].
    cbn [encode_stream chained_decompress fst snd length] in *.
    rewrite bv41_loop_block by assumption.
    destruct (lz4_block_decompress payload u (Some prev_dict)) as [chunk|];
      result_step; [|reflexivity].
    rewrite IH by lia.
    destruct (chained_decompress chunk blocks) as [chunks|]; result_step;
      [|reflexivity].
    rewrite <- app_assoc. reflexivity.
Qed.

(** Decoding a well-formed stream is chained decompression followed by
    concatenation. *)
Lemma bv41_decode_stream (blocks : list (Z * bytes)) (rest : bytes) :
  Forall block_fits blocks -> stream_end rest ->
  bv41_decode (encode_stream blocks rest)
  = (chunks ← chained_decompress [] blocks; Ret (concat chunks)).
Proof.
  intros Hfit Hend. unfold bv41_decode.
  pose proof (bv41_loop_stream blocks rest Hfit Hend
                (S (length (encode_stream blocks rest))) [] [] []) as H.
  cbn [app] in H. change (len (@nil byte)) with 0 in H.
  rewrite H by (pose proof (length_encode_stream blocks rest); lia).
  destruct (chained_decompress [] blocks); reflexivity.
Qed.

(** The loop ends within the iterations it is given whenever these exceed
    the bytes left after [off]: every iteration that goes on moves [off]
    forward by at least 12. *)
Lemma bv41_loop_terminates (fuel : nat) :
  forall (raw : bytes) (off : Z) (prev_dict : bytes) (bv_parts : list bytes),
    Z.max 0 (len raw - off) < Z.of_nat fuel ->
    exists r, bv41_loop fuel raw off prev_dict bv_parts = Some r.
Proof.
  induction fuel as [|fuel IH]; intros raw off prev_dict bv_parts Hfuel; [lia|].
  cbn [bv41_loop].
  destruct (off <? len raw) eqn:Hlt; [|eauto].
  apply Z.ltb_lt in Hlt.
  destruct (bytes_eqb _ bv41_end); [eauto|].
  destruct (negb _); [eauto|].
  destruct (unpack_from_le32 raw (off + 4)) as [u_size|]; [|eauto].
  destruct (unpack_from_le32 raw (off + 4 + 4)) as [c_size|] eqn:Hc; [|eauto].
  apply unpack_from_le32_nonneg in Hc.
  destruct (lz4_block_decompress _ u_size (Some prev_dict)) as [chunk|]; [|eauto].
  apply IH. lia.
Qed.

(** A stream of [n] copies of one sub-block. *)
Lemma chained_decompress_repeat (u : Z) (payload chunk : bytes) (n : nat) :
  (forall d, lz4_block_decompress payload u (Some d) = Some chunk) ->
  forall d, chained_decompress d (repeat (u, payload) n) = Ret (repeat chunk n).
Proof.
  intros Hdec. induction n as [|n IH]; intros d; [reflexivity|].
  cbn [repeat chained_decompress]. rewrite Hdec. result_step.
  rewrite IH. reflexivity.
Qed.

Lemma repeat_fits (u : Z) (payload : bytes) (n : nat) :
  block_fits (u, payload) -> Forall block_fits (repeat (u, payload) n).
Proof. intros H. induction n as [|n IH]; constructor; assumption. Qed.

(** C1. On every well-formed chained-block input (sub-blocks whose sizes
    fit their fields, followed by nothing or by the terminator tag) the
    decoder returns the concatenation of the decompressed sub-blocks,
    where the first sub-block is decompressed with the empty dictionary
    and each later one with exactly the decompressed output of the
    sub-block before it; when there is at least one sub-block the input
    begins with the magic tag and method 0 of the decode chain returns
    that result. *)
Theorem bv41_chained_dictionary (blocks : list (Z * bytes)) (rest : bytes) :
  Forall block_fits blocks -> stream_end rest ->
  bv41_decode (encode_stream blocks rest)
  = (chunks ← chained_decompress [] blocks; Ret (concat chunks))
  /\ (blocks <> [] ->
      method0 (encode_stream blocks rest)
      = match chained_decompress [] blocks with
        | Ret chunks => Some (concat chunks)
        | Raise => None
        end).
Proof.
  intros Hfit Hend.
  pose proof (bv41_decode_stream blocks rest Hfit Hend) as Hdec.
  split; [exact Hdec|].
  intros Hne. unfold method0. rewrite Hdec.
  destruct blocks as [|[u payload] blocks]; [congruence|].
  cbn [encode_stream]. unfold encode_block. rewrite <- !app_assoc.
  match goal with
  | |- context [py_slice (bv41_magic ++ ?t) 0 4] =>
      pose proof (py_slice_app [] bv41_magic t 0 4 eq_refl eq_refl) as Hs
  end.
  cbn [app] in Hs. rewrite Hs, bytes_eqb_refl.
  destruct (chained_decompress [] ((u, payload) :: blocks)); reflexivity.
Qed.

(** C9, as the code has it. The codec sets no bound of its own: every
    declared uncompressed size that fits the four-byte field is handed to
    the block decompressor as it is, and the outcome of a one-block input
    is the decompressor's; a stream of any number of sub-blocks that the
    decompressor accepts is decoded; and the loop always ends, within as
    many iterations as the input has bytes, since each iteration consumes
    at least the 12 header bytes. *)
Theorem bv41_sizes_left_to_decompressor (u_size : Z) (payload : bytes) :
  0 <= u_size < 2 ^ 32 -> len payload < 2 ^ 32 ->
  bv41_decode (encode_block u_size payload)
  = of_option (lz4_block_decompress payload u_size (Some []))
  /\ (forall (n : nat) (chunk : bytes),
        (forall d, lz4_block_decompress payload u_size (Some d) = Some chunk) ->
        bv41_decode (encode_stream (repeat (u_size, payload) n) [])
        = Ret (concat (repeat chunk n)))
  /\ (forall raw : bytes,
        exists r, bv41_loop (S (length raw)) raw 0 [] [] = Some r).
Proof.
  intros Hu Hc.
  assert (Hfit : block_fits (u_size, payload)) by (split; assumption).
  split; [|split].
  - pose proof (bv41_decode_stream [(u_size, payload)] []) as H.
    cbn [encode_stream] in H. rewrite app_nil_r in H.
    rewrite H; [| constructor; [exact Hfit | constructor] | left; reflexivity].
    cbn [chained_decompress]. unfold bytes in *.
    destruct (lz4_block_decompress payload u_size (Some [])) as [chunk|];
      [|reflexivity].
    result_step. cbn [concat]. rewrite app_nil_r. reflexivity.
  - intros n chunk Hdec.
    rewrite bv41_decode_stream;
      [| apply repeat_fits; exact Hfit | left; reflexivity].
    rewrite (chained_decompress_repeat u_size payload chunk n Hdec). reflexivity.
  - intros raw. apply bv41_loop_terminates.
    pose proof (len_nonneg raw). unfold len in *. lia.
Qed.

End ChainedBlocks.

(** The two-block sample: the second sub-block is a match into the
    dictionary, so its output starts with the first sub-block's output. *)
Lemma bv41_chained_dictionary_witness :
  Forall block_fits Samples.two_blocks
  /\ stream_end bv41_end
  /\ bv41_decode (RT := Samples.rt) (encode_stream Samples.two_blocks bv41_end)
     = Ret [x61; x62; x63; x64; x61; x62; x63; x64; x76; x77; x78; x79; x7a].
Proof.
  assert (Hfit : Forall block_fits Samples.two_blocks)
    by (repeat constructor; by_evaluation).
  assert (Hend : stream_end bv41_end) by (right; exists []; reflexivity).
  split; [exact Hfit|]. split; [exact Hend|].
  destruct (@bv41_chained_dictionary Samples.rt Samples.two_blocks bv41_end Hfit Hend)
    as [H _].
  rewrite H. reflexivity.
Defined.

(** Negative control: without the dictionary the second sub-block of the
    sample does not decompress, and with the whole output so far as the
    dictionary it would here give the same bytes. *)
Example second_block_needs_dictionary :
  LZ4.decompress [x00; x04; x00; x50; x76; x77; x78; x79; x7a] 21 (Some []) = None
  /\ LZ4.decompress [x00; x04; x00; x50; x76; x77; x78; x79; x7a] 21
       (Some [x61; x62; x63; x64])
     = Some [x61; x62; x63; x64; x76; x77; x78; x79; x7a].
Proof. split; reflexivity. Qed.

(** C9, counterexample. A sub-block that declares an uncompressed size of
    one gibibyte is not rejected: the size goes to the decompressor and
    the decode succeeds; so does a stream of a hundred sub-blocks. *)
Lemma bv41_no_size_bound_counterexample :
  unpack_from_le32 Samples.huge_block 4 = Ret 1073741824
  /\ bv41_decode (RT := Samples.rt) Samples.huge_block = Ret [x41]
  /\ bv41_decode (RT := Samples.rt)
       (encode_stream (repeat (1073741824, [x10; x41]) 100) [])
     = Ret (repeat x41 100).
Proof. vm_compute. repeat split. Qed.

(** The one-gibibyte declaration again: the outcome is the decompressor's. *)
Lemma bv41_sizes_left_to_decompressor_witness :
  0 <= 1073741824 < 2 ^ 32
  /\ len [x10; x41] < 2 ^ 32
  /\ bv41_decode (RT := Samples.rt) (encode_block 1073741824 [x10; x41])
     = Ret [x41].
Proof.
  assert (Hu : 0 <= 1073741824 < 2 ^ 32) by by_evaluation.
  assert (Hc : len [x10; x41] < 2 ^ 32) by by_evaluation.
  split; [exact Hu|]. split; [exact Hc|].
  destruct (@bv41_sizes_left_to_decompressor Samples.rt 1073741824 [x10; x41] Hu Hc)
    as [H _].
  rewrite H. reflexivity.
Defined.

(** ** The decode chain *)

Section Chain.

Context `{RT : Runtime}.

(** What a checked output is. *)
Lemma checked_some (expected_size : Z) (out : option bytes) (p : bytes) :
  checked expected_size out = Some p <->
  out = Some p /\ len p = expected_size.
Proof.
  unfold checked. destruct out as [q|]; [|split; [discriminate | intros [H _]; discriminate H]].
  destruct (len q =? expected_size) eqn:E.
  - apply Z.eqb_eq in E. split; [intros [= <-]; auto | intros [[= <-] _]; reflexivity].
  - apply Z.eqb_neq in E. split; [discriminate | intros [[= <-] H]; congruence].
Qed.

(** C4, as the code has it. The length check is made once, after the
    chain: the outcome of a tile is the output of the first method that
    returns without raising, kept when its length is the expected one and
    dropped otherwise; so a method that returns output of another length
    ends the chain with a failure and no later method is attempted. The
    chain with a check at every step agrees with it on every tile the
    code decodes. *)
Theorem decode_tile_checks_length_once (raw : bytes) (expected_size : Z) :
  decode_tile raw expected_size
  = checked expected_size (first_output raw expected_size)
  /\ (forall p, first_output raw expected_size = Some p ->
                len p <> expected_size ->
                decode_tile raw expected_size = None)
  /\ (forall p, decode_tile raw expected_size = Some p ->
                decode_tile_per_step raw expected_size = Some p).
Proof.
  assert (Hcode : decode_tile raw expected_size
                  = checked expected_size (first_output raw expected_size)).
  { unfold decode_tile, tile_pixels, first_output, checked.
    destruct (method0 raw); [reflexivity|].
    destruct (method1 raw expected_size); [reflexivity|].
    destruct (method2 raw expected_size); [reflexivity|].
    destruct (method3 raw expected_size); reflexivity. }
  split; [exact Hcode|]. split.
  - intros p Hp Hlen. rewrite Hcode, Hp. unfold checked.
    apply Z.eqb_neq in Hlen. rewrite Hlen. reflexivity.
  - intros p. rewrite Hcode. intros H. apply checked_some in H as [Hfirst Hlen].
    assert (Hp : checked expected_size (Some p) = Some p)
      by (apply checked_some; auto).
    unfold first_output in Hfirst. unfold decode_tile_per_step.
    destruct (method0 raw) as [p0|].
    { injection Hfirst as ->. rewrite Hp. reflexivity. }
    cbn [checked].
    destruct (method1 raw expected_size) as [p1|].
    { injection Hfirst as ->. rewrite Hp. reflexivity. }
    cbn [checked].
    destruct (method2 raw expected_size) as [p2|].
    { injection Hfirst as ->. rewrite Hp. reflexivity. }
    cbn [checked].
    destruct (method3 raw expected_size) as [p3|].
    { injection Hfirst as ->. rewrite Hp. reflexivity. }
    cbn [checked]. rewrite Hfirst. exact Hp.
Qed.

End Chain.

(** C4, counterexample. A 16-byte entry that begins with the magic tag and
    holds one sub-block of one byte: method 0 returns one byte, which is
    not the 16 bytes expected of a 2x2 tile; the chain stops there and the
    tile is dropped, although the next method (the entry taken as
    uncompressed pixels, its length being 16) would have given a result,
    as the chain with a check at every step does. *)
Lemma decode_chain_counterexample :
  len Samples.short_chained = 16
  /\ method0 (RT := Samples.rt) Samples.short_chained = Some [x41]
  /\ method1 Samples.short_chained 16 = Some Samples.short_chained
  /\ decode_tile (RT := Samples.rt) Samples.short_chained 16 = None
  /\ decode_tile_per_step (RT := Samples.rt) Samples.short_chained 16
     = Some Samples.short_chained.
Proof. vm_compute. repeat split. Qed.

(** ** Opening a container *)

Section Open.

Context `{RT : Runtime}.

Lemma load_thumbnail_blank (z : ZipFile) (pf : ProcreateFile) :
  blank_document z pf ->
  exists pf', _load_thumbnail pf = Ret pf' /\ blank_document z pf'.
Proof.
  intros Hb. unfold _load_thumbnail.
  destruct (first_image pf _) as [img|].
  - eexists; split; [reflexivity|]. exact Hb.
  - destruct Hb as (Hz & Hrest). rewrite Hz. result_step.
    destruct (first_image pf _) as [img|]; eexists; (split; [reflexivity|]);
      split; assumption.
Qed.

Lemma load_composite_blank (z : ZipFile) (pf : ProcreateFile) :
  blank_document z pf -> blank_document z (_load_composite pf).
Proof.
  intros Hb. unfold _load_composite.
  destruct (first_image pf _); exact Hb.
Qed.

(** Neither path gives a property list: nothing is stored. *)
Lemma load_document_archive_unparsable (z : ZipFile) (pf : ProcreateFile) :
  _zip pf = Some z ->
  unparsable z "Document.archive" -> unparsable z "document.archive" ->
  _load_document_archive pf = pf.
Proof.
  unfold unparsable, _load_document_archive. intros Hz H1 H2.
  cbn [load_archive_paths]. rewrite Hz. cbn [mbind option_bind].
  change (zip_read z "Document.archive" ≫= plistlib_loads) with
    (data ← zip_read z "Document.archive"; plistlib_loads data).
  rewrite H1.
  change (zip_read z "document.archive" ≫= plistlib_loads) with
    (data ← zip_read z "document.archive"; plistlib_loads data).
  rewrite H2. reflexivity.
Qed.

Lemma get_root_object_no_archive (pf : ProcreateFile) :
  _document_archive pf = None -> _get_root_object pf = Ret None.
Proof. intros H. unfold _get_root_object. rewrite H. reflexivity. Qed.

(** C3, as the code has it. When the document-metadata entry, under both
    of its names, is missing, unreadable or not a property list, opening
    the container succeeds without raising, and the document keeps its
    initial canvas size 0 x 0 and has no layers, whether or not a
    thumbnail was loaded: [_parse_metadata] returns before its thumbnail
    fallback when there is no root object. *)
Theorem open_unparsable_metadata (z : ZipFile) :
  unparsable z "Document.archive" -> unparsable z "document.archive" ->
  exists pf, ProcreateFile_open (Archive z) = Ret pf
             /\ canvas_width pf = 0 /\ canvas_height pf = 0
             /\ layers pf = [] /\ layer_count pf = 0.
Proof.
  intros H1 H2. unfold ProcreateFile_open, _load.
  destruct (load_thumbnail_blank z (set_zip (Some z) initial_file))
    as (pf1 & E1 & Hb1).
  { repeat split. }
  rewrite E1. result_step.
  pose proof (load_composite_blank z pf1 Hb1) as Hb2.
  rewrite (load_document_archive_unparsable z (_load_composite pf1))
    by (assumption || apply Hb2).
  destruct Hb2 as (Hz & Harch & Hl & Hc & Hw & Hh).
  unfold _parse_metadata, _parse_layers.
  rewrite (get_root_object_no_archive _ Harch). result_step.
  cbn [usable_root]. result_step.
  rewrite (get_root_object_no_archive _ Harch). result_step.
  cbn [usable_root].
  eexists; split; [reflexivity|]. repeat split; assumption.
Qed.

End Open.

(** C3, counterexample. The sample container with garbage in its metadata
    entry and a 100 x 80 thumbnail: opening succeeds and the thumbnail is
    loaded, yet the canvas size is 0 x 0, not the thumbnail's. *)
Lemma open_garbage_counterexample :
  open_summary
    (ProcreateFile_open (RT := Samples.rt)
       (Archive (Samples.drawing_zip Samples.garbage)))
  = Some (Some (100, 80), (0, 0), O).
Proof. vm_compute. reflexivity. Qed.

Lemma open_unparsable_metadata_witness :
  unparsable (RT := Samples.rt) (Samples.drawing_zip Samples.garbage) "Document.archive"
  /\ unparsable (RT := Samples.rt) (Samples.drawing_zip Samples.garbage) "document.archive"
  /\ exists pf,
       ProcreateFile_open (RT := Samples.rt)
         (Archive (Samples.drawing_zip Samples.garbage)) = Ret pf
       /\ canvas_width pf = 0 /\ canvas_height pf = 0
       /\ layers pf = [] /\ layer_count pf = 0.
Proof.
  split; [reflexivity|]. split; [reflexivity|].
  apply (@open_unparsable_metadata Samples.rt); reflexivity.
Defined.

(** A metadata entry that parses to something other than a dictionary is
    stored all the same, and the first use of it raises. *)
Example open_non_dictionary_raises :
  ProcreateFile_open (RT := Samples.rt)
    (Archive (Samples.drawing_zip Samples.doc_string_bytes)) = Raise.
Proof. vm_compute. reflexivity. Qed.

(** ** Layer images *)

Section LayerImage.

Context `{RT : Runtime}.

(** C10. For a layer index that is negative or not below the number of
    layers, and for a layer whose identifier is the empty string,
    [load_layer_image] returns [None] and does not raise. *)
Theorem load_layer_image_absent (pf : ProcreateFile) (i : Z) :
  (i < 0
   \/ len (layers pf) <= i
   \/ exists layer, nth_error (layers pf) (Z.to_nat i) = Some layer
                    /\ uuid layer = "") ->
  load_layer_image pf i = Ret None.
Proof.
  intros H. unfold load_layer_image.
  destruct (_zip pf) as [z|]; [|reflexivity].
  destruct ((i <? 0) || (len (layers pf) <=? i)) eqn:Hguard; [reflexivity|].
  apply orb_false_elim in Hguard as [Hneg Hlen].
  apply Z.ltb_ge in Hneg. apply Z.leb_gt in Hlen.
  destruct H as [H | [H | (layer & Hnth & Huuid)]]; [lia | lia |].
  rewrite Hnth. result_step. rewrite Huuid. reflexivity.
Qed.


(** The paste of a decoded tile returns exactly when its box fits. *)
Lemma paste_tile (img : Image) (ts col row : Z) (px : bytes) :
  paste img (Image_frombytes_BGRA ts px) (col * ts, row * ts)
  = if box_fits ts (col, row, px)
    then Ret (pasted img (Image_frombytes_BGRA ts px) (col * ts, row * ts))
    else Raise.
Proof. reflexivity. Qed.



Lemma valid_transparent : valid_pixel (mkRGBA 0 0 0 0).
Proof. repeat split; cbn; lia. Qed.

Lemma frombytes_valid (side : Z) (data : bytes) :
  valid_image (Image_frombytes_BGRA side data).
Proof.
  intros x y. unfold valid_pixel, valid_channel. cbn.
  repeat split;
    match goal with
    | |- context [byte_val ?b] => pose proof (byte_val_range b)
    end; lia.
Qed.

Lemma pasted_valid (base tile : Image) (at_ : Z * Z) :
  valid_image base -> valid_image tile -> valid_image (pasted base tile at_).
Proof.
  intros Hb Ht x y. cbn [pasted pixel]. destruct (_ && _); [apply Ht | apply Hb].
Qed.

(** What the tile loop returns has the size of the working image, and
    8-bit channels when the working image has. *)
Lemma paste_tiles_ret (z : ZipFile) (prefix : string) (ts : Z)
    (files : list string) :
  forall (img : Image) (la : bool) (r : Image) (la' : bool),
    paste_tiles z prefix ts files img la = Ret (r, la') ->
    Image_size r = Image_size img
    /\ (valid_image img -> valid_image r).
Proof.
  induction files as [|f files IH]; intros img la r la' H.
  - injection H as <- <-. auto.
  - cbn [paste_tiles] in H.
    destruct (load_tile z prefix ts f) as [[[col row] px]|]; [|eapply IH; exact H].
    rewrite paste_tile in H.
    destruct (box_fits ts (col, row, px)); [|discriminate H].
    destruct (IH _ _ _ _ H) as [Hs Hv].
    split; [rewrite Hs; reflexivity|].
    intros Hi. apply Hv. apply pasted_valid; [exact Hi | apply frombytes_valid].
Qed.

(** A layer image, when there is one, has the canvas size, which is then
    positive, and 8-bit channels. *)
Lemma load_layer_image_canvas (pf : ProcreateFile) (i : Z) (L : Image) :
  load_layer_image pf i = Ret (Some L) ->
  Image_size L = (canvas_width pf, canvas_height pf)
  /\ valid_image L
  /\ (canvas_width pf <=? 0) || (canvas_height pf <=? 0) = false.
Proof.
  unfold load_layer_image.
  destruct (_zip pf) as [z|]; [|discriminate].
  destruct (_ || _); [discriminate|].
  destruct (nth_error _ _) as [layer|]; [|discriminate]. result_step.
  destruct (String.eqb _ _); [discriminate|].
  destruct (chunk_files_of _ _) as [|f files]; [discriminate|].
  destruct (_get_tile_size pf) as [ts|]; [|discriminate]. result_step.
  destruct ((canvas_width pf <=? 0) || (canvas_height pf <=? 0)); [discriminate|].
  destruct (paste_tiles _ _ _ _ _ _) as [[layer_img loaded_any]|] eqn:Hp;
    [|discriminate].
  destruct (paste_tiles_ret _ _ _ _ _ _ _ _ Hp) as [_ Hv].
  specialize (Hv (fun _ _ => valid_transparent)).
  destruct loaded_any; [|discriminate]. cbn [negb].
  destruct (size_eqb _ _) eqn:Hs; cbn [negb]; intros [= <-].
  - apply size_eqb_eq in Hs. auto.
  - split; [unfold Image_size, crop; cbn; f_equal; lia|].
    split; [|reflexivity].
    intros x y. cbn [crop pixel].
    destruct (in_bounds _ _ _); [apply Hv | apply valid_transparent].
Qed.



End LayerImage.

(** On the sample document: index 1 is the number of layers. *)
Lemma load_layer_image_absent_witness :
  len (layers Samples.drawing) <= 1
  /\ load_layer_image (RT := Samples.rt) Samples.drawing 1 = Ret None
  /\ load_layer_image (RT := Samples.rt) Samples.drawing (-1) = Ret None.
Proof.
  assert (H : len (layers Samples.drawing) <= 1) by by_evaluation.
  split; [exact H|]. split.
  - apply (@load_layer_image_absent Samples.rt). right. left. exact H.
  - apply (@load_layer_image_absent Samples.rt). left. lia.
Defined.



(** A decoded tile whose paste box does not fit: with 2x2 tiles, column
    [2 ^ 30] starts at [2 ^ 31], and the call raises although tile (0, 0)
    decodes. *)
Example load_layer_image_far_tile_raises :
  map (fun t => fst t) (decoded_tiles (RT := Samples.rt) far_zip "L1/" 2)
  = [(0, 0); (1073741824, 0)]
  /\ load_layer_image (RT := Samples.rt) far_drawing 0 = Raise.
Proof. vm_compute. split; reflexivity. Qed.

(** A tile name with a unit separator (character 31) before the column
    is skipped: [int] does not strip it. *)
Example tile_coords_unit_separator :
  int_of_str (String (ascii_of_nat 31) "0") = None
  /\ tile_coords (String (ascii_of_nat 31) "0_0") = None
  /\ tile_coords " 0_0 " = Some (0, 0).
Proof. vm_compute. repeat split. Qed.

(** ** Compositing *)

Section Composite.

Context `{RT : Runtime}.

Lemma effective_visible_hidden (ov : gmap Z bool) (i : Z)
    (layer : ProcreateLayer) :
  ov !! i = Some false -> effective_visible (Some ov) i layer = false.
Proof.
  intros H. unfold effective_visible.
  case_bool_decide as He.
  - subst ov. rewrite lookup_empty in H. discriminate.
  - rewrite H. reflexivity.
Qed.

(** With every remaining layer hidden the loop changes nothing. *)
Lemma composite_loop_all_hidden (pf : ProcreateFile) (ov : gmap Z bool)
    (ls : list ProcreateLayer) :
  forall (i : Z) (result : Image) (loaded_any : bool),
    (forall j, i <= j < i + len ls -> ov !! j = Some false) ->
    composite_loop pf (Some ov) i ls result loaded_any = Ret (result, loaded_any).
Proof.
  induction ls as [|layer rest IH]; intros i result loaded_any Hhid; [reflexivity|].
  cbn [composite_loop].
  rewrite effective_visible_hidden.
  - cbn [negb]. apply IH. intros j Hj. apply Hhid. unfold len in *. cbn [length]. lia.
  - apply Hhid. unfold len. cbn [length]. lia.
Qed.

(** C2, as the code has it. For every document, whatever its number of
    layers, compositing under overrides that hide every layer returns
    [None] (no composite), not a transparent canvas: no layer contributes,
    and the caller falls back to the embedded preview. *)
Theorem composite_hide_all_unavailable (pf : ProcreateFile) (ov : gmap Z bool) :
  hides_all ov pf ->
  composite_layers pf (Some ov) = Ret None.
Proof.
  intros Hhid. unfold composite_layers.
  destruct (layers pf) as [|l ls] eqn:Hl; [reflexivity|].
  destruct ((canvas_width pf <=? 0) || (canvas_height pf <=? 0)); [reflexivity|].
  rewrite composite_loop_all_hidden; [reflexivity|].
  intros j Hj. apply Hhid. rewrite Hl. lia.
Qed.

Lemma hide_first_lookup (n : nat) (i : Z) :
  0 <= i < Z.of_nat n -> hide_first n !! i = Some false.
Proof.
  induction n as [|k IH]; intros Hi; [lia|].
  cbn [hide_first].
  destruct (decide (i = Z.of_nat k)) as [->|Hne].
  - apply lookup_insert_eq.
  - rewrite lookup_insert_ne by congruence. apply IH. lia.
Qed.

(** The viewer's hide-all mapping hides every layer. *)
Lemma hide_first_hides_all (pf : ProcreateFile) :
  hides_all (hide_first (length (layers pf))) pf.
Proof. intros i Hi. apply hide_first_lookup. exact Hi. Qed.

(** Equal visibilities give equal loops. *)
Lemma composite_loop_ext (pf : ProcreateFile) (ov1 ov2 : option (gmap Z bool))
    (ls : list ProcreateLayer) :
  forall (i : Z) (result : Image) (loaded_any : bool),
    (forall k layer, nth_error ls k = Some layer ->
       effective_visible ov1 (i + Z.of_nat k) layer
       = effective_visible ov2 (i + Z.of_nat k) layer) ->
    composite_loop pf ov1 i ls result loaded_any
    = composite_loop pf ov2 i ls result loaded_any.
Proof.
  induction ls as [|layer rest IH]; intros i result loaded_any Hvis; [reflexivity|].
  cbn [composite_loop].
  pose proof (Hvis O layer eq_refl) as H0. rewrite Z.add_0_r in H0. rewrite H0.
  assert (Hrest : forall r la,
            composite_loop pf ov1 (i + 1) rest r la
            = composite_loop pf ov2 (i + 1) rest r la).
  { intros r la. apply IH. intros k l Hk.
    replace (i + 1 + Z.of_nat k) with (i + Z.of_nat (S k)) by lia.
    apply Hvis. exact Hk. }
  destruct (negb (effective_visible ov2 i layer)); [apply Hrest|].
  destruct (load_layer_image pf i) as [[img|]|]; result_step;
    [|apply Hrest|reflexivity].
  destruct (if PrimFloat.ltb (opacity layer) 1
            then apply_opacity (opacity layer) img else Ret img)
    as [img'|]; result_step; [|reflexivity].
  destruct (alpha_composite result img') as [r|]; result_step;
    [apply Hrest|reflexivity].
Qed.

Lemma composite_layers_ext (pf : ProcreateFile) (ov1 ov2 : option (gmap Z bool)) :
  (forall k layer, nth_error (layers pf) k = Some layer ->
     effective_visible ov1 (Z.of_nat k) layer
     = effective_visible ov2 (Z.of_nat k) layer) ->
  composite_layers pf ov1 = composite_layers pf ov2.
Proof.
  intros H. unfold composite_layers.
  destruct (layers pf) as [|l ls] eqn:Hl; [reflexivity|]. rewrite <- Hl in *.
  destruct ((canvas_width pf <=? 0) || (canvas_height pf <=? 0)); [reflexivity|].
  rewrite (composite_loop_ext pf ov1 ov2); [reflexivity|].
  intros k layer Hk. cbn. apply H. exact Hk.
Qed.

Lemma native_loop_eq (pf : ProcreateFile) (ls : list ProcreateLayer) :
  forall (i : Z) (result : Image) (loaded_any : bool),
    composite_loop pf None i ls result loaded_any
    = native_loop pf i ls result loaded_any.
Proof.
  induction ls as [|layer rest IH]; intros i result loaded_any; [reflexivity|].
  cbn [composite_loop native_loop effective_visible].
  destruct (negb (visible layer)); [apply IH|].
  destruct (load_layer_image pf i) as [[img|]|]; result_step;
    [|apply IH|reflexivity].
  destruct (if PrimFloat.ltb (opacity layer) 1
            then apply_opacity (opacity layer) img else Ret img)
    as [img'|]; result_step; [|reflexivity].
  destruct (alpha_composite result img') as [r|]; result_step;
    [apply IH|reflexivity].
Qed.

(** C8. For every document, compositing with an empty overrides mapping
    gives the same result as compositing under each layer's own
    visibility flag: it equals the loop run with the native flags, the
    call with no overrides at all, and the call with overrides that repeat
    the native flags. *)
Theorem composite_empty_overrides_is_native (pf : ProcreateFile) :
  composite_layers pf (Some ∅) = composite_native pf
  /\ composite_layers pf (Some ∅) = composite_layers pf None
  /\ forall ov : gmap Z bool,
       (forall k layer, nth_error (layers pf) k = Some layer ->
          ov !! Z.of_nat k = Some (visible layer)) ->
       composite_layers pf (Some ov) = composite_layers pf (Some ∅).
Proof.
  assert (Hnone : composite_layers pf (Some ∅) = composite_layers pf None).
  { apply composite_layers_ext. intros k layer _. reflexivity. }
  split; [|split].
  - rewrite Hnone. unfold composite_layers, composite_native.
    destruct (layers pf); [reflexivity|].
    destruct ((canvas_width pf <=? 0) || (canvas_height pf <=? 0)); [reflexivity|].
    rewrite native_loop_eq. reflexivity.
  - exact Hnone.
  - intros ov Hov. apply composite_layers_ext. intros k layer Hk.
    unfold effective_visible. rewrite (Hov k layer Hk).
    case_bool_decide; reflexivity.
Qed.

Lemma clip8_valid (v : Z) : valid_channel (clip8 v).
Proof. unfold valid_channel, clip8. lia. Qed.

(** [point]: every sample in range is replaced by the clipped value of
    the function at that sample. *)
Lemma point_spec (band band' : Band) (f : Z -> Result Z) :
  point band f = Ret band' ->
  band_width band' = band_width band /\ band_height band' = band_height band
  /\ forall x y, valid_channel (band_value band x y) ->
       exists v, f (band_value band x y) = Ret v
                 /\ band_value band' x y = clip8 v.
Proof.
  unfold point. fold levels.
  destruct (mapM f levels) as [lut|] eqn:Hlut; [|discriminate].
  result_step. intros [= <-]. cbn [band_width band_height band_value].
  split; [reflexivity|]. split; [reflexivity|].
  intros x y Hv.
  destruct (mapM_nth f 0 levels lut Hlut _ _ (nth_error_levels _ Hv))
    as (v & Hfv & Hnth).
  exists v. rewrite Hnth. auto.
Qed.

(** The opacity step changes the alpha channel only. *)
Lemma apply_opacity_spec (op : float) (img img' : Image) :
  apply_opacity op img = Ret img' ->
  Image_size img' = Image_size img
  /\ forall x y,
       chR (pixel img' x y) = chR (pixel img x y)
       /\ chG (pixel img' x y) = chG (pixel img x y)
       /\ chB (pixel img' x y) = chB (pixel img x y)
       /\ (valid_channel (chA (pixel img x y)) ->
           exists v, scale_by op (chA (pixel img x y)) = Ret v
                     /\ chA (pixel img' x y) = clip8 v).
Proof.
  unfold apply_opacity. cbn [split_bands].
  destruct (point _ _) as [a'|] eqn:Hp; [|discriminate].
  result_step. intros [= <-].
  destruct (point_spec _ _ _ Hp) as (Hw & Hh & Hval).
  cbn [band_width band_height band_value] in *.
  split; [reflexivity|].
  intros x y. cbn [merge_bands pixel chR chG chB chA band_value].
  repeat (split; [reflexivity|]).
  intros Hv. apply (Hval x y Hv).
Qed.

(** At opacity one half, [int(x * op)] is the floor of half of [x]. *)
Lemma scale_by_half (a : Z) :
  0 <= a <= 255 -> scale_by 0.5%float a = Ret (a / 2).
Proof.
  intros Ha. apply result_is_eq.
  apply (forall_levels (fun a => result_is (scale_by 0.5%float a) (a / 2)));
    [|exact Ha].
  vm_compute. reflexivity.
Qed.

Lemma shift_for_div255_alpha (a : Z) :
  0 <= a <= 255 -> shift_for_div255 (a * 255 + 128) = a.
Proof.
  intros Ha. apply Z.eqb_eq.
  apply (forall_levels (fun a => shift_for_div255 (a * 255 + 128) =? a));
    [|exact Ha].
  vm_compute. reflexivity.
Qed.

Lemma blend_channel_full_weight (s : Z) :
  0 <= s <= 255 ->
  Z.shiftr (shift_for_div255 (s * (255 * 128) + 128 * 128)) 7 = s.
Proof.
  intros Hs. apply Z.eqb_eq.
  apply (forall_levels
           (fun s => Z.shiftr (shift_for_div255 (s * (255 * 128) + 128 * 128)) 7 =? s));
    [|exact Hs].
  vm_compute. reflexivity.
Qed.

(** Over a fully transparent destination the blend returns the source,
    except that a fully transparent source leaves the destination. *)
Lemma over_transparent_dst (r g b : Z) (src : RGBA) :
  valid_pixel src ->
  over (mkRGBA r g b 0) src = if chA src =? 0 then mkRGBA r g b 0 else src.
Proof.
  intros (Hr & Hg & Hb & Ha). unfold over.
  destruct (chA src =? 0) eqn:E; [reflexivity|].
  apply Z.eqb_neq in E. unfold valid_channel in *.
  cbn [chR chG chB chA].
  replace (chA src * 255 + 0 * (255 - chA src)) with (chA src * 255) by lia.
  replace (chA src * 255 * 255 * 128 / (chA src * 255)) with (255 * 128)
    by (symmetry;
        replace (chA src * 255 * 255 * 128) with (255 * 128 * (chA src * 255)) by lia;
        apply Z.div_mul; lia).
  replace (255 * 128 - 255 * 128) with 0 by lia.
  rewrite !Z.mul_0_r, !Z.add_0_r.
  rewrite !blend_channel_full_weight by assumption.
  rewrite shift_for_div255_alpha by assumption.
  destruct src; reflexivity.
Qed.

Lemma half_below_one : PrimFloat.ltb 0.5%float 1%float = true.
Proof. reflexivity. Qed.

Lemma one_not_below_one : PrimFloat.ltb 1%float 1%float = false.
Proof. reflexivity. Qed.

(** At opacity one half the lookup table is built without an exception. *)
Lemma half_table :
  mapM (scale_by 0.5%float) levels = Ret (map (fun a => a / 2) levels).
Proof. vm_compute. reflexivity. Qed.

Lemma apply_opacity_half (L : Image) :
  valid_image L ->
  exists img', apply_opacity 0.5%float L = Ret img'
    /\ Image_size img' = Image_size L
    /\ forall x y, pixel img' x y = with_alpha (pixel L x y) (chA (pixel L x y) / 2).
Proof.
  intros Hv. destruct (apply_opacity 0.5%float L) as [img'|] eqn:E.
  - exists img'. split; [reflexivity|].
    destruct (apply_opacity_spec _ _ _ E) as (Hsz & Hpx). split; [exact Hsz|].
    intros x y. destruct (Hpx x y) as (Hr & Hg & Hb & Ha).
    destruct (Hv x y) as (_ & _ & _ & Hav).
    destruct (Ha Hav) as (v & Hsc & Hcl).
    rewrite scale_by_half in Hsc by exact Hav. injection Hsc as <-.
    unfold with_alpha. destruct (pixel img' x y) as [r g b a]. cbn in *. subst.
    f_equal. unfold clip8, valid_channel in *.
    pose proof (Z.div_pos (chA (pixel L x y)) 2 ltac:(lia) ltac:(lia)).
    assert (chA (pixel L x y) / 2 <= 255) by (apply Z.div_le_upper_bound; lia).
    lia.
  - exfalso. unfold apply_opacity in E. cbn [split_bands] in E.
    unfold point in E. fold levels in E. rewrite half_table in E. discriminate E.
Qed.

(** The lookup table is built exactly when the function returns on every
    level. *)
Lemma mapM_returns {A B} (f : A -> Result B) (l : list A) :
  match mapM f l with
  | Ret _ => forallb (fun a => match f a with Ret _ => true | Raise => false end) l
             = true
  | Raise => forallb (fun a => match f a with Ret _ => true | Raise => false end) l
             = false
  end.
Proof.
  induction l as [|a l IH]; [reflexivity|].
  cbn [mapM forallb]. destruct (f a); result_step; [|reflexivity].
  destruct (mapM f l); result_step; exact IH.
Qed.

Lemma same_image_refl (a : Image) : same_image a a.
Proof. split; reflexivity. Qed.

(** The opacity step gives the contribution of the claim. *)
Lemma contribution_same (layer : ProcreateLayer) (L : Image) :
  valid_image L ->
  match (if PrimFloat.ltb (opacity layer) 1%float
         then apply_opacity (opacity layer) L else Ret L),
        contribution layer L with
  | Ret a, Ret b => same_image a b
  | Raise, Raise => True
  | _, _ => False
  end.
Proof.
  intros Hv. unfold contribution. cbn zeta.
  destruct (PrimFloat.ltb (opacity layer) 1); [|apply same_image_refl].
  pose proof (mapM_returns (scale_by (opacity layer)) levels) as Ht.
  fold (opacity_applies (opacity layer)) in Ht.
  destruct (apply_opacity (opacity layer) L) as [a|] eqn:E.
  - assert (Happ : opacity_applies (opacity layer) = true).
    { unfold apply_opacity in E. cbn [split_bands] in E.
      unfold point in E. fold levels in E.
      destruct (mapM (scale_by (opacity layer)) levels); [exact Ht | discriminate E]. }
    rewrite Happ.
    destruct (apply_opacity_spec _ _ _ E) as (Hs & Hpx).
    split; [exact Hs|].
    intros x y. cbn [pixel].
    destruct (Hpx x y) as (Hr & Hg & Hb & Ha).
    destruct (Hv x y) as (_ & _ & _ & Hav).
    destruct (Ha Hav) as (v & Hsc & Hcl).
    unfold with_alpha, scaled_alpha. rewrite Hsc.
    destruct (pixel a x y) as [r g b al]. cbn in *. congruence.
  - assert (Happ : opacity_applies (opacity layer) = false).
    { unfold apply_opacity in E. cbn [split_bands] in E.
      unfold point in E. fold levels in E.
      destruct (mapM (scale_by (opacity layer)) levels); [discriminate E | exact Ht]. }
    rewrite Happ. exact I.
Qed.

Lemma alpha_composite_same (r r' a b : Image) :
  same_image r r' -> same_image a b ->
  match alpha_composite r a, alpha_composite r' b with
  | Ret u, Ret v => same_image u v
  | Raise, Raise => True
  | _, _ => False
  end.
Proof.
  intros [Hrs Hrp] [Has Hap]. unfold alpha_composite.
  rewrite <- Hrs, <- Has.
  destruct (size_eqb (Image_size r) (Image_size a)); [|exact I].
  split.
  - unfold Image_size in *. cbn [width height]. exact Hrs.
  - intros x y. cbn [pixel]. rewrite Hrp, Hap. reflexivity.
Qed.

(** The loop blends the contributions, at every index and for every
    opacity. *)
Lemma composite_loop_contributions (pf : ProcreateFile)
    (ov : option (gmap Z bool)) (ls : list ProcreateLayer) :
  forall (i : Z) (r r' : Image) (la : bool),
    same_image r r' ->
    match composite_loop pf ov i ls r la, blend_contributions pf ov i ls r' la with
    | Ret (u, b), Ret (v, c) => same_image u v /\ b = c
    | Raise, Raise => True
    | _, _ => False
    end.
Proof.
  induction ls as [|layer rest IH]; intros i r r' la Hsame; [cbn; auto|].
  cbn [composite_loop blend_contributions].
  destruct (effective_visible ov i layer); cbn [negb]; [|apply IH; exact Hsame].
  destruct (load_layer_image pf i) as [[L|]|] eqn:Hload; result_step;
    [| apply IH; exact Hsame | exact I].
  destruct (load_layer_image_canvas pf i L Hload) as (_ & Hv & _).
  pose proof (contribution_same layer L Hv) as Hc.
  destruct (if PrimFloat.ltb (opacity layer) 1 then _ else _) as [a|];
    destruct (contribution layer L) as [b|]; try contradiction; result_step;
    [|exact I].
  pose proof (alpha_composite_same r r' a b Hsame Hc) as Hb.
  destruct (alpha_composite r a) as [u|];
    destruct (alpha_composite r' b) as [v|]; try contradiction; result_step;
    [|exact I].
  apply IH. exact Hb.
Qed.

(** C7, as the code has it. (1) For every document, every overrides
    mapping and every stack of layers, the composite is, pixel for pixel,
    the alpha-over blend of the contributions of the visible layers that
    have an image, where a layer of opacity below 1.0 contributes its
    image with every alpha value [a] replaced by [int(a * opacity)]
    clipped to 8 bits and its colour channels untouched, and any other
    layer contributes its image as it is; the two calls raise together.
    (2) The opacity step on any image leaves size and colour channels and
    changes alpha by that rule. (3) At opacity 0.5 the value is the floor
    of [a / 2] (127 for 255, so not exactly half of an odd value). (4) For
    a single visible layer with image [L], the composite at opacity 0.5
    has alpha [a / 2] rounded down with the colours of [L] where that
    alpha is not zero and the backdrop where it is zero, and at opacity
    1.0 it has the pixel of [L] where its alpha is not zero and the
    backdrop elsewhere. *)
Theorem opacity_scales_alpha_only (pf : ProcreateFile) (layer : ProcreateLayer)
    (L : Image) (ov : option (gmap Z bool)) :
  same_outcome (composite_layers pf ov) (composite_of_contributions pf ov)
  /\ (forall op img img', apply_opacity op img = Ret img' ->
      Image_size img' = Image_size img
      /\ forall x y,
           chR (pixel img' x y) = chR (pixel img x y)
           /\ chG (pixel img' x y) = chG (pixel img x y)
           /\ chB (pixel img' x y) = chB (pixel img x y)
           /\ (valid_channel (chA (pixel img x y)) ->
               exists v, scale_by op (chA (pixel img x y)) = Ret v
                         /\ chA (pixel img' x y) = clip8 v))
  /\ (forall a, 0 <= a <= 255 ->
      scale_by 0.5%float a = Ret (a / 2) /\ scaled_alpha 0.5%float a = a / 2)
  /\ (layers pf = [layer] ->
      effective_visible ov 0 layer = true ->
      load_layer_image pf 0 = Ret (Some L) ->
      let w := canvas_width pf in
      let h := canvas_height pf in
      (opacity layer = 0.5%float ->
       exists img,
         composite_layers pf ov = Ret (Some img)
         /\ Image_size img = (w, h)
         /\ forall x y,
              pixel img x y
              = if chA (pixel L x y) / 2 =? 0 then backdrop
                else with_alpha (pixel L x y) (chA (pixel L x y) / 2))
      /\ (opacity layer = 1%float ->
          exists img,
            composite_layers pf ov = Ret (Some img)
            /\ Image_size img = (w, h)
            /\ forall x y,
                 pixel img x y
                 = if chA (pixel L x y) =? 0 then backdrop else pixel L x y)).
Proof.
  split; [|split; [|split]].
  - unfold composite_layers, composite_of_contributions.
    destruct (layers pf) as [|l0 ls] eqn:Hls; [exact I|]. rewrite <- Hls.
    cbn zeta. destruct (_ || _); [exact I|].
    pose proof (composite_loop_contributions pf ov (layers pf) 0 _ _ false
                  (same_image_refl
                     (Image_new (canvas_width pf, canvas_height pf) backdrop)))
      as H.
    change (mkRGBA 255 255 255 0) with backdrop.
    destruct (composite_loop _ _ _ _ _ _) as [[u b]|];
      destruct (blend_contributions _ _ _ _ _ _) as [[v c]|]; try contradiction;
      [|exact I].
    destruct H as [Hs <-]. destruct b; [exact Hs | exact I].
  - intros op img img' E. apply (apply_opacity_spec _ _ _ E).
  - intros a Ha. pose proof (scale_by_half a Ha) as Hs.
    split; [exact Hs|]. unfold scaled_alpha. rewrite Hs.
    unfold clip8.
    pose proof (Z.div_pos a 2 ltac:(lia) ltac:(lia)).
    assert (a / 2 <= 255) by (apply Z.div_le_upper_bound; lia).
    lia.
  - intros Hl Hvis Hload w h.
    destruct (load_layer_image_canvas pf 0 L Hload) as (Hsz & Hv & Hpos).
    fold w h in Hpos.
    split.
    + intros Hop.
      destruct (apply_opacity_half L Hv) as (img' & Happ & Hs' & Hpx').
      unfold composite_layers. rewrite Hl. fold w h. rewrite Hpos.
      cbn [composite_loop]. rewrite Hvis. cbn [negb]. rewrite Hload. result_step.
      rewrite Hop, half_below_one, Happ. result_step.
      unfold alpha_composite. rewrite Hs', Hsz.
      replace (size_eqb _ _) with true by (symmetry; apply size_eqb_eq; reflexivity).
      result_step.
      eexists. split; [reflexivity|]. split; [reflexivity|].
      intros x y. cbn [pixel Image_new]. rewrite Hpx'.
      rewrite over_transparent_dst; [reflexivity|].
      destruct (Hv x y) as (Hr & Hg & Hb & Ha). unfold with_alpha.
      repeat split; cbn; try apply Hr; try apply Hg; try apply Hb;
        unfold valid_channel in *.
      * apply Z.div_pos; lia.
      * apply Z.div_le_upper_bound; lia.
    + intros Hop.
      unfold composite_layers. rewrite Hl. fold w h. rewrite Hpos.
      cbn [composite_loop]. rewrite Hvis. cbn [negb]. rewrite Hload. result_step.
      rewrite Hop, one_not_below_one. result_step.
      unfold alpha_composite. rewrite Hsz.
      replace (size_eqb _ _) with true by (symmetry; apply size_eqb_eq; reflexivity).
      result_step.
      eexists. split; [reflexivity|]. split; [reflexivity|].
      intros x y. cbn [pixel Image_new].
      apply over_transparent_dst. apply Hv.
Qed.

End Composite.

(** C2, counterexample. On the sample document, which has one layer and a
    2 x 4 canvas, the viewer's hide-all mapping hides every layer and the
    composite is [None], so it is not a transparent 2 x 4 canvas. *)
Lemma composite_hide_all_counterexample :
  hides_all (hide_first 1) Samples.drawing
  /\ composite_layers (RT := Samples.rt) Samples.drawing (Some (hide_first 1))
     = Ret None
  /\ ~ is_transparent_canvas
         (composite_layers (RT := Samples.rt) Samples.drawing (Some (hide_first 1)))
         2 4.
Proof.
  assert (E : composite_layers (RT := Samples.rt) Samples.drawing
                (Some (hide_first 1)) = Ret None) by (vm_compute; reflexivity).
  split; [exact (hide_first_hides_all Samples.drawing)|].
  split; [exact E|].
  rewrite E. intros (im & Him & _). discriminate Him.
Qed.

(** On a document without layers (the sample container with a garbage
    metadata entry) and on the one-layer sample. *)
Lemma composite_hide_all_unavailable_witness :
  hides_all ∅ (Samples.opened Samples.garbage)
  /\ composite_layers (RT := Samples.rt) (Samples.opened Samples.garbage) (Some ∅)
     = Ret None.
Proof.
  assert (H : hides_all ∅ (Samples.opened Samples.garbage)).
  { intros i Hi.
    assert (E : len (layers (Samples.opened Samples.garbage)) = 0)
      by (vm_compute; reflexivity).
    rewrite E in Hi. lia. }
  split; [exact H|].
  apply (@composite_hide_all_unavailable Samples.rt). exact H.
Defined.

(** C7, counterexample. The sample layer is opaque red; composited at
    opacity 1.0 its alpha is 255, at opacity 0.5 it is 127, which is not
    half of 255. *)
Lemma opacity_half_counterexample :
  pixel_of (composite_layers (RT := Samples.rt) Samples.drawing None) 0 0
  = Some (mkRGBA 255 0 0 255)
  /\ pixel_of (composite_layers (RT := Samples.rt) Samples.drawing_half None) 0 0
     = Some (mkRGBA 255 0 0 127)
  /\ 2 * 127 <> 255.
Proof. vm_compute. repeat split; discriminate. Qed.

Lemma opacity_scales_alpha_only_witness :
  exists img,
    composite_layers (RT := Samples.rt) Samples.drawing_half None = Ret (Some img)
    /\ Image_size img = (2, 4)
    /\ pixel img 0 0 = mkRGBA 255 0 0 127
    /\ pixel img 0 3 = backdrop.
Proof.
  destruct (@opacity_scales_alpha_only Samples.rt Samples.drawing_half
              (mkLayer "Sketch" "L1" 0.5%float true 0)
              (Samples.first_layer_image Samples.drawing_half) None)
    as (_ & _ & _ & H).
  destruct (H eq_refl eq_refl eq_refl) as [H5 _].
  destruct (H5 eq_refl) as (img & Himg & Hsize & Hpx).
  exists img. split; [exact Himg|]. split; [exact Hsize|].
  split; rewrite Hpx; reflexivity.
Defined.

(* ================================================================== *)
(** * Further properties of the reader                                 *)
(* ================================================================== *)

(** ** Reference resolution and the root object *)

(** Resolution on a graph that is a list. *)
Lemma resolve_uid_list_graph (pf : ProcreateFile) (objects : list PValue)
    (u : PValue) :
  _archive_objects pf = PList objects ->
  _resolve_uid pf (Some u)
  = Ret (match uid_index u with
         | Some idx =>
             if (0 <=? idx) && (idx <? len objects)
             then nth_error objects (Z.to_nat idx)
             else None
         | None => None
         end).
Proof.
  intros Hobj. unfold _resolve_uid. destruct (uid_index u) as [idx|]; [|reflexivity].
  rewrite Hobj. destruct (0 <=? idx) eqn:H0; [|reflexivity].
  cbn [py_len andb]. result_step.
  destruct (idx <? len objects) eqn:H1; [|reflexivity].
  cbn [py_getitem].
  apply Z.leb_le in H0. apply Z.ltb_lt in H1.
  destruct (nth_error objects (Z.to_nat idx)) as [v|] eqn:E; [reflexivity|].
  apply nth_error_None in E. unfold len in H1. lia.
Qed.

(** On a graph that is a list, a reference resolves to the object at its
    index when the index is within bounds and to [None] otherwise; a
    negative index is out of bounds and does not count from the end; an
    object that is no reference resolves to [None]. Nothing raises. *)
Theorem resolve_uid_on_list (pf : ProcreateFile) (objects : list PValue)
    (u : PValue) :
  _archive_objects pf = PList objects ->
  _resolve_uid pf (Some u)
  = Ret (match uid_index u with
         | Some idx =>
             if (0 <=? idx) && (idx <? len objects)
             then nth_error objects (Z.to_nat idx)
             else None
         | None => None
         end).
Proof. apply resolve_uid_list_graph. Qed.

Lemma resolve_uid_on_list_witness :
  _archive_objects Samples.drawing
  = PList (match _archive_objects Samples.drawing with PList l => l | _ => [] end)
  /\ _resolve_uid Samples.drawing (Some (PUID 5)) = Ret (Some (PStr "L1"))
  /\ _resolve_uid Samples.drawing (Some (PInt (-1))) = Ret None
  /\ _resolve_uid Samples.drawing (Some (PStr "L1")) = Ret None.
Proof.
  assert (H : _archive_objects Samples.drawing
              = PList (match _archive_objects Samples.drawing with
                       | PList l => l | _ => [] end)) by reflexivity.
  split; [exact H|].
  split; [|split]; rewrite (resolve_uid_on_list _ _ _ H); reflexivity.
Defined.

(** ** Integer probing *)

(** The probe goes on behind keys it passes over. *)
Lemma get_int_skip (d : pdict) (skipped : list string) (default : Z) :
  Forall (passed_over d) skipped ->
  forall tail, _get_int d (skipped ++ tail) default = _get_int d tail default.
Proof.
  intros H tail. induction H as [|k ks Hk Hks IH]; [reflexivity|].
  cbn [app _get_int]. unfold passed_over in Hk.
  destruct (dict_get d k) as [v|]; [|exact IH].
  destruct v; cbn [is_number] in *; try discriminate Hk; try exact IH.
  unfold unpack_be_i32, py_slice.
  assert (Hlt : (length b < 4)%nat) by (unfold len in Hk; lia).
  destruct b as [|b0 [|b1 [|b2 [|b3 b]]]]; cbn in Hlt; cbn; try exact IH; lia.
Qed.

(** Keys that are absent, or hold a value that is neither a number nor a
    blob of four bytes or more, are passed over: the probe goes on with
    the keys after them, and gives the default when no key is left. *)
Theorem get_int_passes_over (d : pdict) (skipped rest : list string)
    (default : Z) :
  Forall (passed_over d) skipped ->
  _get_int d (skipped ++ rest) default = _get_int d rest default
  /\ _get_int d skipped default = Ret default.
Proof.
  intros H. split; [apply get_int_skip; exact H|].
  rewrite <- (app_nil_r skipped) at 1. rewrite get_int_skip by exact H. reflexivity.
Qed.

Lemma get_int_passes_over_witness :
  Forall (passed_over [("a", PStr "x"); ("b", PBytes [x01]); ("w", PInt 7)])
    ["a"; "b"; "zz"]
  /\ _get_int [("a", PStr "x"); ("b", PBytes [x01]); ("w", PInt 7)]
       (["a"; "b"; "zz"] ++ ["w"]) 0 = Ret 7
  /\ _get_int [("a", PStr "x"); ("b", PBytes [x01]); ("w", PInt 7)]
       ["a"; "b"; "zz"] 5 = Ret 5.
Proof.
  assert (H : Forall (passed_over [("a", PStr "x"); ("b", PBytes [x01]); ("w", PInt 7)])
                ["a"; "b"; "zz"]).
  { repeat constructor; by_evaluation. }
  split; [exact H|].
  split.
  - rewrite (proj1 (get_int_passes_over _ _ ["w"] 0 H)). reflexivity.
  - exact (proj2 (get_int_passes_over _ _ [] 5 H)).
Defined.

(** The first key that holds a number decides, whatever later keys hold:
    an integer is returned as it is, a boolean as 0 or 1, a real
    truncated toward zero (and a NaN or infinite real raises). *)
Theorem get_int_first_number_wins (d : pdict) (skipped rest : list string)
    (key : string) (v : PValue) (default : Z) :
  Forall (passed_over d) skipped ->
  dict_get d key = Some v -> is_number v = true ->
  _get_int d (skipped ++ key :: rest) default = int_of_number v.
Proof.
  intros Hs Hk Hn.
  rewrite get_int_skip by exact Hs.
  cbn [_get_int]. rewrite Hk, Hn. reflexivity.
Qed.

(** The canvas-width aliases on a root object that has both the first
    alias and a later one: the first one decides. *)
Lemma get_int_first_number_wins_witness :
  _get_int [("width", PInt 640); ("SilicaDocumentArchiveDimensionWidth", PReal 2.5%float)]
    ([] ++ "SilicaDocumentArchiveDimensionWidth" :: ["width"; "canvasWidth"; "tileSize"]) 0
  = Ret 2.
Proof.
  rewrite (get_int_first_number_wins _ [] _ "SilicaDocumentArchiveDimensionWidth"
             (PReal 2.5%float));
    [reflexivity | constructor | reflexivity | reflexivity].
Defined.

(** Reading back a four-byte big-endian two's-complement field. *)
Lemma unpack_encode_be_i32 (z : Z) :
  - 2 ^ 31 <= z < 2 ^ 31 -> unpack_be_i32 (encode_be_i32 z) = Ret z.
Proof.
  intros Hz. unfold unpack_be_i32, encode_be_i32.
  change (2 ^ 31) with 2147483648 in *. change (2 ^ 32) with 4294967296.
  set (u := z mod 4294967296).
  assert (Hu : 0 <= u < 4294967296) by (apply Z.mod_pos_bound; lia).
  rewrite !byte_val_of by (apply Z.mod_pos_bound; lia).
  replace (u / 65536) with (u / 256 / 256) by (rewrite Z.div_div by lia; reflexivity).
  replace (u / 16777216) with (u / 256 / 256 / 256)
    by (rewrite !Z.div_div by lia; reflexivity).
  pose proof (Z.div_mod u 256 ltac:(lia)) as E0.
  pose proof (Z.div_mod (u / 256) 256 ltac:(lia)) as E1.
  pose proof (Z.div_mod (u / 256 / 256) 256 ltac:(lia)) as E2.
  pose proof (Z.mod_pos_bound u 256 ltac:(lia)).
  pose proof (Z.mod_pos_bound (u / 256) 256 ltac:(lia)).
  pose proof (Z.mod_pos_bound (u / 256 / 256) 256 ltac:(lia)).
  rewrite (Z.mod_small (u / 256 / 256 / 256)) by lia.
  replace (u mod 256 + 256 * ((u / 256) mod 256
             + 256 * ((u / 256 / 256) mod 256 + 256 * (u / 256 / 256 / 256))))
    with u by lia.
  f_equal. subst u.
  assert (Hmod : z mod 4294967296 = if z <? 0 then z + 4294967296 else z).
  { destruct (Z.ltb_spec z 0).
    - rewrite <- (Z.mod_add z 1 4294967296) by lia. apply Z.mod_small. lia.
    - apply Z.mod_small. lia. }
  rewrite Hmod.
  destruct (Z.ltb_spec z 0);
    match goal with |- context [?a <? ?b] => destruct (Z.ltb_spec a b) end; lia.
Qed.

(** A blob value is read as a signed big-endian 32-bit integer from its
    first four bytes, whatever follows them: packing an integer of that
    range and probing gives the integer back. *)
Theorem get_int_blob_round_trip (d : pdict) (skipped rest : list string)
    (key : string) (z : Z) (extra : bytes) (default : Z) :
  Forall (passed_over d) skipped ->
  dict_get d key = Some (PBytes (encode_be_i32 z ++ extra)) ->
  - 2 ^ 31 <= z < 2 ^ 31 ->
  _get_int d (skipped ++ key :: rest) default = Ret z.
Proof.
  intros Hs Hk Hz. rewrite get_int_skip by exact Hs.
  cbn [_get_int]. rewrite Hk. cbn [is_number].
  pose proof (py_slice_app [] (encode_be_i32 z) extra 0 4 eq_refl eq_refl) as Hsl.
  cbn [app] in Hsl. rewrite Hsl, unpack_encode_be_i32 by exact Hz. reflexivity.
Qed.

Lemma get_int_blob_round_trip_witness :
  - 2 ^ 31 <= -2048 < 2 ^ 31
  /\ _get_int [("height", PBytes (encode_be_i32 (-2048) ++ [x07; x07]))]
       (["SilicaDocumentArchiveDimensionHeight"] ++ "height" :: ["canvasHeight"]) 0
     = Ret (-2048).
Proof.
  assert (Hz : - 2 ^ 31 <= -2048 < 2 ^ 31) by by_evaluation.
  split; [exact Hz|].
  apply (get_int_blob_round_trip _ ["SilicaDocumentArchiveDimensionHeight"]
           ["canvasHeight"] "height" (-2048) [x07; x07] 0);
    [repeat constructor | reflexivity | exact Hz].
Defined.

(** ** Tile size *)

(** The tile size is always positive, so the tile grid computation never
    divides by zero and the second guard of [load_layer_image] changes
    nothing. *)
Theorem get_tile_size_positive (pf : ProcreateFile) (ts : Z) :
  _get_tile_size pf = Ret ts ->
  0 < ts /\ effective_tile_size ts = ts.
Proof.
  unfold _get_tile_size, effective_tile_size. intros H.
  assert (Hpos : 0 < ts).
  { destruct (_get_root_object pf) as [root|]; [|discriminate H].
    cbn [mbind Result_bind] in H.
    destruct (usable_root root) as [r|]; [|injection H as <-; lia].
    destruct (_get_int r _ 0) as [v|]; [|discriminate H].
    cbn [mbind Result_bind] in H.
    destruct (0 <? v) eqn:E; injection H as <-; [apply Z.ltb_lt in E|]; lia. }
  split; [exact Hpos|].
  destruct (Z.leb_spec ts 0); [lia | reflexivity].
Qed.

Lemma get_tile_size_positive_witness :
  _get_tile_size Samples.drawing = Ret 2
  /\ 0 < 2 /\ effective_tile_size 2 = 2
  /\ _get_tile_size initial_file = Ret 256.
Proof.
  assert (H : _get_tile_size Samples.drawing = Ret 2) by reflexivity.
  split; [exact H|].
  destruct (get_tile_size_positive _ _ H) as [H1 H2].
  split; [exact H1|]. split; [exact H2|]. reflexivity.
Defined.

(** ** The root object *)

(** The root object of a non-empty keyed archive whose object graph is a
    list. When ["$top"] is a dictionary (or absent, which counts as an
    empty one): the dictionary that its ["root"] refers to, when it refers
    to one; otherwise the object at index 1, when that is a dictionary;
    otherwise none. The reference is resolved once and not followed
    further. When ["$top"] is present and is not a dictionary, the call
    raises. *)
Theorem get_root_object_on_list (pf : ProcreateFile) (archive : pdict)
    (objects : list PValue) :
  _document_archive pf = Some (PDict archive) -> archive <> [] ->
  _archive_objects pf = PList objects ->
  let fallback := match nth_error objects 1 with
                  | Some (PDict d) => Some d
                  | _ => None
                  end in
  _get_root_object pf
  = match dict_get archive "$top" with
    | None => Ret fallback
    | Some (PDict top) =>
        Ret (match _resolve_uid pf (dict_get top "root") with
             | Ret (Some (PDict d)) => Some d
             | _ => fallback
             end)
    | Some _ => Raise
    end.
Proof.
  intros Harch Hne Hobj fallback.
  assert (Hfall :
    (n ← py_len (_archive_objects pf);
     if 1 <? n
     then o ← py_getitem (_archive_objects pf) 1;
          match o with PDict d => Ret (Some d) | _ => Ret None end
     else Ret None)
    = Ret fallback).
  { subst fallback. rewrite Hobj. cbn [py_len py_getitem]. result_step.
    change (Z.to_nat 1) with 1%nat.
    destruct (1 <? len objects) eqn:E.
    - apply Z.ltb_lt in E.
      destruct (nth_error objects 1) as [o|] eqn:En.
      + result_step. destruct o; reflexivity.
      + apply nth_error_None in En. unfold len in E. lia.
    - apply Z.ltb_ge in E.
      destruct (nth_error objects 1) as [o|] eqn:En; [|reflexivity].
      assert (1 < length objects)%nat by (apply nth_error_Some; congruence).
      unfold len in E. lia. }
  assert (Htop : forall top,
    (root ← _resolve_uid pf (dict_get top "root");
     match root with
     | Some (PDict d) => Ret (Some d)
     | _ =>
         n ← py_len (_archive_objects pf);
         if 1 <? n
         then o ← py_getitem (_archive_objects pf) 1;
              match o with PDict d => Ret (Some d) | _ => Ret None end
         else Ret None
     end)
    = Ret (match _resolve_uid pf (dict_get top "root") with
           | Ret (Some (PDict d)) => Some d
           | _ => fallback
           end)).
  { intros top.
    assert (Hres : exists r, _resolve_uid pf (dict_get top "root") = Ret r).
    { destruct (dict_get top "root") as [u|]; [|exists None; reflexivity].
      rewrite (resolve_uid_list_graph pf objects u Hobj). eauto. }
    destruct Hres as [r Hr]. rewrite Hr. result_step.
    destruct r as [[| | | | | | | |d]|]; try exact Hfall. reflexivity. }
  unfold _get_root_object. rewrite Harch. cbn [truthy].
  destruct archive as [|kv archive']; [congruence|]. cbn [negb as_dict of_option].
  result_step. unfold dict_get_or.
  destruct (dict_get (kv :: archive') "$top") as [v|].
  - destruct v; cbn [as_dict of_option]; result_step; try reflexivity.
    apply Htop.
  - cbn [as_dict of_option]. result_step.
    rewrite (Htop []). reflexivity.
Qed.

Lemma get_root_object_on_list_witness :
  match _get_root_object Samples.drawing with
  | Ret (Some root) => dict_get root "tileSize"
  | _ => None
  end = Some (PInt 2).
Proof.
  rewrite (get_root_object_on_list Samples.drawing
             (match Samples.archive 1%float with PDict a => a | _ => [] end)
             (match _archive_objects Samples.drawing with PList l => l | _ => [] end));
    [reflexivity | reflexivity | discriminate | reflexivity].
Defined.

(** ** Loading the document archive *)

Section Loading.

Context `{RT : Runtime}.

(** The metadata entry is looked for under two names, in order. When
    ["Document.archive"] parses to a dictionary, that dictionary is the
    archive, the object graph is its ["$objects"] (the empty list when it
    has none), and the second name is not consulted. In every other case
    (the first entry is missing, unreadable, not a property list, or a
    property list that is not a dictionary) ["document.archive"] is
    tried in the same way. A parsed value that is not a dictionary is
    nevertheless stored as the archive, with the object graph left as it
    was, unless a later name parses. *)
Theorem load_document_archive_priority (pf : ProcreateFile) (z : ZipFile) :
  _zip pf = Some z ->
  let first := (data ← zip_read z "Document.archive"; plistlib_loads data) in
  let second := (data ← zip_read z "document.archive"; plistlib_loads data) in
  let pf' := _load_document_archive pf in
  match first with
  | Some (PDict d) =>
      _document_archive pf' = Some (PDict d)
      /\ _archive_objects pf' = default (PList []) (dict_get d "$objects")
  | _ =>
      match second with
      | Some (PDict d) =>
          _document_archive pf' = Some (PDict d)
          /\ _archive_objects pf' = default (PList []) (dict_get d "$objects")
      | Some v =>
          _document_archive pf' = Some v
          /\ _archive_objects pf' = _archive_objects pf
      | None =>
          _document_archive pf'
          = match first with
            | Some v => Some v
            | None => _document_archive pf
            end
          /\ _archive_objects pf' = _archive_objects pf
      end
  end.
Proof.
  intros Hz. cbv zeta.
  unfold _load_document_archive. cbn [load_archive_paths].
  rewrite Hz. cbn [mbind option_bind].
  set (first := zip_read z "Document.archive" ≫= _). clearbody first.
  assert (Hrest : forall v1,
            _zip (set_document_archive (Some v1) pf) = Some z) by (intros; exact Hz).
  destruct first as [v1|].
  - destruct v1 as [| | | | | | | |d1]; [..|split; reflexivity];
      rewrite Hrest; cbn [mbind option_bind];
      set (second := zip_read z "document.archive" ≫= _); clearbody second;
      destruct second as [[| | | | | | | |d2]|]; split; reflexivity.
  - set (second := zip_read z "document.archive" ≫= _). clearbody second.
    destruct second as [[| | | | | | | |d2]|]; split; reflexivity.
Qed.

End Loading.

Lemma load_document_archive_priority_witness :
  _document_archive
    (_load_document_archive (RT := Samples.rt) (set_zip (Some lowercase_zip) initial_file))
  = Some (Samples.archive 1%float)
  /\ py_len (_archive_objects
               (_load_document_archive (RT := Samples.rt)
                  (set_zip (Some lowercase_zip) initial_file)))
     = Ret 6.
Proof.
  pose proof (@load_document_archive_priority Samples.rt
                (set_zip (Some lowercase_zip) initial_file) lowercase_zip
                eq_refl) as H.
  cbv zeta in H.
  change (zip_read lowercase_zip "Document.archive" ≫= plistlib_loads)
    with (@None PValue) in H.
  change (zip_read lowercase_zip "document.archive" ≫= plistlib_loads)
    with (Some (Samples.archive 1%float)) in H.
  cbv iota beta delta [Samples.archive] in H.
  destruct H as [H1 H2]. rewrite H1, H2. split; reflexivity.
Defined.

(** A first entry that parses to a string is stored and passed by: the
    second name gives the archive. *)
Example load_document_archive_second_name :
  _document_archive
    (_load_document_archive (RT := Samples.rt)
       (set_zip (Some two_names_zip) initial_file))
  = Some (Samples.archive 1%float).
Proof. reflexivity. Qed.

(** ** Metadata and layers *)

(** Split an equation [c ≫= k = Ret v] on the result of [c]. *)
Tactic Notation "bind_inv" hyp(H) "as" ident(x) :=
  match type of H with
  | mbind _ ?c = Ret _ =>
      let E := fresh "E" x in
      destruct c as [x|] eqn:E; cbn [mbind Result_bind] in H; [|discriminate H]
  end.

Section Metadata.

Context `{RT : Runtime}.

(** What [_parse_metadata] does once a root object was found: the canvas
    width and height are the probed values, replaced by the thumbnail's
    when they are zero and a thumbnail is loaded; the DPI changes only to
    a positive probed value; the layer list, the archive and the images
    are untouched. *)
Lemma parse_metadata_inv (pf pf' : ProcreateFile) (root : pdict) :
  _get_root_object pf = Ret (Some root) -> root <> [] ->
  _parse_metadata pf = Ret pf' ->
  exists w h d,
    _get_int root ["SilicaDocumentArchiveDimensionWidth"; "width";
                   "canvasWidth"; "tileSize"] 0 = Ret w
    /\ _get_int root ["SilicaDocumentArchiveDimensionHeight"; "height";
                      "canvasHeight"] 0 = Ret h
    /\ _get_int root ["SilicaDocumentArchiveDPI"; "dpi"] 0 = Ret d
    /\ canvas_width pf'
       = match thumbnail pf with
         | Some t => if w =? 0 then width t else w
         | None => w
         end
    /\ canvas_height pf'
       = match thumbnail pf with
         | Some t => if h =? 0 then height t else h
         | None => h
         end
    /\ dpi pf' = (if 0 <? d then d else dpi pf).
Proof.
  intros Hroot Hne H. unfold _parse_metadata in H. rewrite Hroot in H.
  cbn [mbind Result_bind] in H.
  destruct root as [|kv root]; [congruence|]. cbn [usable_root] in H.
  bind_inv H as w. bind_inv H as h. bind_inv H as d. bind_inv H as o.
  bind_inv H as cp. injection H as <-. eauto 10.
Qed.

(** Attributes [_parse_metadata] never touches, and the DPI staying
    positive. *)
Lemma parse_metadata_frame (pf pf' : ProcreateFile) :
  _parse_metadata pf = Ret pf' ->
  _zip pf' = _zip pf /\ layers pf' = layers pf
  /\ layer_count pf' = layer_count pf
  /\ thumbnail pf' = thumbnail pf /\ composite pf' = composite pf
  /\ _document_archive pf' = _document_archive pf
  /\ _archive_objects pf' = _archive_objects pf
  /\ (0 < dpi pf -> 0 < dpi pf').
Proof.
  intros H. unfold _parse_metadata in H.
  bind_inv H as r. destruct (usable_root r) as [root|];
    [|injection H as <-; repeat split; auto].
  bind_inv H as w. bind_inv H as h. bind_inv H as d. bind_inv H as o.
  bind_inv H as cp. injection H as <-. cbn. repeat split.
  intros Hd. destruct (0 <? d) eqn:Hpos; [apply Z.ltb_lt in Hpos; lia | exact Hd].
Qed.

(** When the root object has none of the dimension aliases (or only
    values the probe passes over), the canvas size is the thumbnail's,
    and 0 x 0 when no thumbnail was loaded. *)
Theorem parse_metadata_thumbnail_fallback (pf pf' : ProcreateFile)
    (root : pdict) :
  _get_root_object pf = Ret (Some root) -> root <> [] ->
  Forall (passed_over root)
    ["SilicaDocumentArchiveDimensionWidth"; "width"; "canvasWidth"; "tileSize";
     "SilicaDocumentArchiveDimensionHeight"; "height"; "canvasHeight"] ->
  _parse_metadata pf = Ret pf' ->
  (canvas_width pf', canvas_height pf')
  = match thumbnail pf with
    | Some t => (width t, height t)
    | None => (0, 0)
    end.
Proof.
  intros Hroot Hne Hkeys H.
  destruct (parse_metadata_inv pf pf' root Hroot Hne H)
    as (w & h & d & Hw & Hh & _ & Ew & Eh & _).
  repeat match goal with
         | Hf : Forall _ (_ :: _) |- _ =>
             apply Forall_cons in Hf; destruct Hf
         end.
  assert (Hwk : Forall (passed_over root)
                  ["SilicaDocumentArchiveDimensionWidth"; "width"; "canvasWidth";
                   "tileSize"]) by (repeat constructor; assumption).
  assert (Hhk : Forall (passed_over root)
                  ["SilicaDocumentArchiveDimensionHeight"; "height"; "canvasHeight"])
    by (repeat constructor; assumption).
  pose proof (get_int_skip root _ 0 Hwk []) as Sw.
  pose proof (get_int_skip root _ 0 Hhk []) as Sh.
  cbn [app _get_int] in Sw, Sh. cbn [_get_int] in Hw, Hh.
  rewrite Sw in Hw. rewrite Sh in Hh.
  injection Hw as <-. injection Hh as <-.
  rewrite Ew, Eh. destruct (thumbnail pf); reflexivity.
Qed.

(** A non-zero width or height found in the root object is kept: the
    thumbnail does not override it. *)
Theorem parse_metadata_explicit_size (pf pf' : ProcreateFile) (root : pdict)
    (w h : Z) :
  _get_root_object pf = Ret (Some root) -> root <> [] ->
  dict_get root "SilicaDocumentArchiveDimensionWidth" = Some (PInt w) ->
  dict_get root "SilicaDocumentArchiveDimensionHeight" = Some (PInt h) ->
  w <> 0 -> h <> 0 ->
  _parse_metadata pf = Ret pf' ->
  canvas_width pf' = w /\ canvas_height pf' = h.
Proof.
  intros Hroot Hne Hw Hh Hw0 Hh0 H.
  destruct (parse_metadata_inv pf pf' root Hroot Hne H)
    as (w' & h' & d & Gw & Gh & _ & Ew & Eh & _).
  cbn [_get_int] in Gw, Gh. rewrite Hw in Gw. rewrite Hh in Gh.
  cbn in Gw, Gh. injection Gw as <-. injection Gh as <-.
  rewrite Ew, Eh.
  apply Z.eqb_neq in Hw0. apply Z.eqb_neq in Hh0. rewrite Hw0, Hh0.
  destruct (thumbnail pf); auto.
Qed.

(** The main loop over layer references keeps the layers it starts from,
    in order, and adds at most one layer per reference. *)
Lemma parse_layer_refs_appends (pf : ProcreateFile) (obj_refs : list PValue) :
  forall so_far ls,
    parse_layer_refs pf obj_refs so_far = Ret ls ->
    exists added, ls = so_far ++ added
                  /\ (length added <= length obj_refs)%nat.
Proof.
  induction obj_refs as [|ref rest IH]; intros so_far ls H.
  - injection H as <-. exists []. rewrite app_nil_r. auto.
  - cbn [parse_layer_refs] in H. bind_inv H as r.
    assert (Hskip : parse_layer_refs pf rest so_far = Ret ls ->
                    exists added, ls = so_far ++ added
                                  /\ (length added <= length (ref :: rest))%nat).
    { intros H'. destruct (IH _ _ H') as (added & -> & Hlen).
      exists added. cbn [length]. split; [reflexivity | lia]. }
    destruct r as [[| | | | | | | |d]|]; try (apply Hskip; exact H).
    bind_inv H as layer. destruct (IH _ _ H) as (added & -> & Hlen).
    exists (layer :: added). rewrite <- app_assoc. cbn [app length].
    split; [reflexivity | lia].
Qed.

(** The fallback scan keeps the layers it starts from and adds only
    layers without identifier and with blend mode 0. *)
Lemma fallback_scan_appends (pf : ProcreateFile) (objs : list PValue) :
  forall so_far ls,
    fallback_scan pf objs so_far = Ret ls ->
    exists added, ls = so_far ++ added
                  /\ Forall (fun l => uuid l = "" /\ blend_mode l = 0) added.
Proof.
  induction objs as [|obj rest IH]; intros so_far ls H.
  - injection H as <-. exists []. rewrite app_nil_r. auto.
  - cbn [fallback_scan] in H. bind_inv H as found.
    destruct found as [layer|].
    + destruct (IH _ _ H) as (added & -> & Hall).
      exists (layer :: added). rewrite <- app_assoc. cbn [app].
      split; [reflexivity|]. constructor; [|exact Hall].
      rename Efound into E. unfold fallback_layer in E.
      destruct obj; try discriminate E.
      destruct (dict_get d "$class"); [|discriminate E].
      bind_inv E as cls. destruct cls as [[| | | | | | | |c]|]; try discriminate E.
      bind_inv E as is_layer. destruct (negb is_layer); [discriminate E|].
      bind_inv E as nm. bind_inv E as op. injection E as <-. auto.
    + apply IH. exact H.
Qed.

(** What [_parse_layers] changes. *)
Lemma parse_layers_inv (pf pf' : ProcreateFile) :
  _parse_layers pf = Ret pf' ->
  (exists added, layers pf' = layers pf ++ added)
  /\ (layer_count pf = len (layers pf) -> layer_count pf' = len (layers pf'))
  /\ _zip pf' = _zip pf /\ dpi pf' = dpi pf
  /\ canvas_width pf' = canvas_width pf /\ canvas_height pf' = canvas_height pf
  /\ _document_archive pf' = _document_archive pf
  /\ _archive_objects pf' = _archive_objects pf.
Proof.
  intros H. unfold _parse_layers in H. bind_inv H as r.
  destruct (usable_root r) as [root|].
  2:{ injection H as <-. split; [exists []; rewrite app_nil_r; reflexivity|].
      repeat split; auto. }
  bind_inv H as layers_ref. bind_inv H as obj_refs. bind_inv H as ls.
  bind_inv H as ls'. injection H as <-.
  destruct (parse_layer_refs_appends _ _ _ _ Els) as (added & -> & _).
  assert (Hadd : exists added', ls' = layers pf ++ added').
  { destruct (layers pf ++ added) as [|l0 ls0] eqn:Eapp.
    - unfold _parse_layers_fallback in Els'. bind_inv Els' as objs.
      cbn [layers set_layers] in Els'.
      destruct (fallback_scan_appends _ _ _ _ Els') as (added' & -> & _).
      apply app_eq_nil in Eapp as [-> _]. exists added'. reflexivity.
    - injection Els' as <-. rewrite <- Eapp. eauto. }
  destruct Hadd as (added' & ->).
  cbn [layers set_layers layer_count _zip dpi canvas_width canvas_height
       _document_archive _archive_objects].
  split; [eauto|]. split; [|repeat split].
  intros Hcount. destruct (layers pf ++ added') as [|l0 ls0] eqn:Eapp; [|reflexivity].
  apply app_eq_nil in Eapp as [Hnil _]. rewrite Hnil in Hcount. exact Hcount.
Qed.

(** [_parse_layers] keeps the layers already there and appends to them,
    and keeps [layer_count] equal to the length of the list when it was
    so before; it touches nothing else of what the later operations use. *)
Theorem parse_layers_appends (pf pf' : ProcreateFile) :
  _parse_layers pf = Ret pf' ->
  (exists added, layers pf' = layers pf ++ added)
  /\ (layer_count pf = len (layers pf) -> layer_count pf' = len (layers pf'))
  /\ _zip pf' = _zip pf /\ dpi pf' = dpi pf
  /\ canvas_width pf' = canvas_width pf /\ canvas_height pf' = canvas_height pf
  /\ _document_archive pf' = _document_archive pf
  /\ _archive_objects pf' = _archive_objects pf.
Proof. apply parse_layers_inv. Qed.

End Metadata.

(** On a document whose root object has no dimension field: the canvas
    takes the 100 x 80 of the thumbnail. *)
Lemma parse_metadata_thumbnail_fallback_witness :
  match _parse_metadata bare_file with
  | Ret pf' => (canvas_width pf', canvas_height pf', dpi pf')
  | Raise => (0, 0, 0)
  end = (100, 80, 300).
Proof.
  destruct (_parse_metadata bare_file) as [pf'|] eqn:E;
    [|vm_compute in E; discriminate E].
  pose proof (parse_metadata_thumbnail_fallback bare_file pf'
                [("SilicaDocumentArchiveDPI", PInt 300)] eq_refl
                ltac:(discriminate) ltac:(repeat constructor) E) as H.
  injection H as -> ->.
  vm_compute in E. injection E as <-. reflexivity.
Defined.

(** On the sample document, whose root object gives 2 x 4: the 100 x 80
    thumbnail does not override it. *)
Lemma parse_metadata_explicit_size_witness :
  match _parse_metadata Samples.drawing with
  | Ret pf' => (canvas_width pf', canvas_height pf')
  | Raise => (0, 0)
  end = (2, 4).
Proof.
  destruct (_parse_metadata Samples.drawing) as [pf'|] eqn:E;
    [|vm_compute in E; discriminate E].
  destruct (parse_metadata_explicit_size Samples.drawing pf'
              (match _get_root_object Samples.drawing with
               | Ret (Some r) => r | _ => [] end) 2 4
              eq_refl ltac:(discriminate) eq_refl eq_refl
              ltac:(discriminate) ltac:(discriminate) E) as [-> ->].
  reflexivity.
Defined.

(** Parsing the layers of the sample document a second time: the layer
    already there is kept and the count follows the list. *)
Lemma parse_layers_appends_witness :
  match _parse_layers Samples.drawing with
  | Ret pf' => layer_count pf' = len (layers pf')
               /\ firstn 1 (layers pf') = layers Samples.drawing
  | Raise => False
  end.
Proof.
  destruct (_parse_layers Samples.drawing) as [pf'|] eqn:E;
    [|vm_compute in E; discriminate E].
  destruct (parse_layers_appends Samples.drawing pf' E) as ((added & Hl) & Hc & _).
  split; [apply Hc; reflexivity|].
  rewrite Hl. reflexivity.
Defined.

(** ** Opening and closing *)

Section OpenClose.

Context `{RT : Runtime}.

(** [_load_thumbnail] changes the thumbnail only. *)
Lemma load_thumbnail_frame (pf pf' : ProcreateFile) :
  _load_thumbnail pf = Ret pf' ->
  _zip pf' = _zip pf /\ dpi pf' = dpi pf /\ layers pf' = layers pf
  /\ layer_count pf' = layer_count pf.
Proof.
  unfold _load_thumbnail. intros H.
  destruct (first_image pf _); [injection H as <-; auto|].
  bind_inv H as z.
  destruct (first_image pf _); injection H as <-; auto.
Qed.

Lemma load_composite_frame (pf : ProcreateFile) :
  _zip (_load_composite pf) = _zip pf /\ dpi (_load_composite pf) = dpi pf
  /\ layers (_load_composite pf) = layers pf
  /\ layer_count (_load_composite pf) = layer_count pf.
Proof. unfold _load_composite. destruct (first_image pf _); auto. Qed.

Lemma load_archive_paths_frame (paths : list string) :
  forall pf,
    _zip (load_archive_paths pf paths) = _zip pf
    /\ dpi (load_archive_paths pf paths) = dpi pf
    /\ layers (load_archive_paths pf paths) = layers pf
    /\ layer_count (load_archive_paths pf paths) = layer_count pf.
Proof.
  induction paths as [|p paths IH]; intros pf; [auto|].
  cbn [load_archive_paths].
  destruct (_ ≫= _) as [v|]; [|apply IH].
  destruct v as [| | | | | | | |d];
    try (match goal with
         | |- context [load_archive_paths ?p paths] =>
             destruct (IH p) as (-> & -> & -> & ->)
         end; cbn; auto; fail).
  cbn. auto.
Qed.

(** A document that opens has an open handle on its container, a positive
    DPI (132 unless the metadata gives a positive one) and a
    [layer_count] equal to the number of its layers; opening a path that
    is no file, or a file that is no ZIP container, raises. *)
Theorem open_invariants (src : FileSource) (pf : ProcreateFile) :
  ProcreateFile_open src = Ret pf ->
  (exists z, src = Archive z /\ _zip pf = Some z)
  /\ 0 < dpi pf
  /\ layer_count pf = len (layers pf).
Proof.
  unfold ProcreateFile_open, _load. intros H.
  destruct src as [| |z]; try discriminate H.
  bind_inv H as pf1. bind_inv H as pf2.
  destruct (load_thumbnail_frame _ _ Epf1) as (Z1 & D1 & L1 & C1).
  destruct (load_composite_frame pf1) as (Z2 & D2 & L2 & C2).
  destruct (load_archive_paths_frame ["Document.archive"; "document.archive"]
              (_load_composite pf1)) as (Z3 & D3 & L3 & C3).
  fold (_load_document_archive (_load_composite pf1)) in Z3, D3, L3, C3.
  destruct (parse_metadata_frame _ _ Epf2) as (Z4 & L4 & C4 & _ & _ & _ & _ & D4).
  destruct (parse_layers_inv _ _ H) as (_ & C5 & Z5 & D5 & _).
  cbn in Z1, D1, L1, C1.
  split; [|split].
  - exists z. split; [reflexivity|]. congruence.
  - rewrite D5. apply D4. rewrite D3, D2, D1. lia.
  - apply C5. rewrite C4, L4, C3, L3, C2, L2, C1, L1. reflexivity.
Qed.

(** After [close] the handle is gone, closing again changes nothing, and
    every operation on the container answers "nothing" without raising:
    no entry names, no thumbnail bytes, no layer image for any index and
    no composite for any overrides. What was loaded at opening stays:
    the best image and the layer list are those of the open document. *)
Theorem closed_file_yields_nothing (pf : ProcreateFile) :
  _zip (close pf) = None
  /\ close (close pf) = close pf
  /\ get_file_list (close pf) = []
  /\ extract_thumbnail_bytes (close pf) = Ret None
  /\ (forall i, load_layer_image (close pf) i = Ret None)
  /\ (forall ov, composite_layers (close pf) ov = Ret None)
  /\ get_best_image (close pf) = get_best_image pf
  /\ layers (close pf) = layers pf.
Proof.
  assert (Hz : _zip (close pf) = None).
  { unfold close. destruct (_zip pf) eqn:E; [reflexivity | exact E]. }
  assert (Hload : forall i, load_layer_image (close pf) i = Ret None).
  { intros i. unfold load_layer_image. rewrite Hz. reflexivity. }
  split; [exact Hz|]. split; [unfold close at 1; rewrite Hz; reflexivity|].
  split; [unfold get_file_list; rewrite Hz; reflexivity|].
  split; [unfold extract_thumbnail_bytes; rewrite Hz; reflexivity|].
  split; [exact Hload|].
  split; [|unfold close, get_best_image; destruct (_zip pf); split; reflexivity].
  intros ov. unfold composite_layers.
  destruct (layers (close pf)) as [|l ls] eqn:El; [reflexivity|]. rewrite <- El.
  destruct (_ || _); [reflexivity|].
  assert (Hloop : forall ls i r la,
            composite_loop (close pf) ov i ls r la = Ret (r, la)).
  { clear El ls l. induction ls as [|l ls IH]; intros i r la; [reflexivity|].
    cbn [composite_loop]. destruct (negb _); [apply IH|].
    rewrite Hload. result_step. apply IH. }
  rewrite Hloop. reflexivity.
Qed.

End OpenClose.

(** On the sample container. *)
Lemma open_invariants_witness :
  exists pf,
    ProcreateFile_open (RT := Samples.rt)
      (Archive (Samples.drawing_zip Samples.doc_bytes)) = Ret pf
    /\ _zip pf = Some (Samples.drawing_zip Samples.doc_bytes)
    /\ 0 < dpi pf /\ layer_count pf = len (layers pf).
Proof.
  destruct (ProcreateFile_open (RT := Samples.rt)
              (Archive (Samples.drawing_zip Samples.doc_bytes))) as [pf|] eqn:E;
    [|vm_compute in E; discriminate E].
  exists pf. split; [reflexivity|].
  destruct (@open_invariants Samples.rt _ pf E) as ((z & Hz & Hzip) & Hd & Hc).
  injection Hz as <-. auto.
Defined.

(** ** Thumbnail bytes and the loaded thumbnail *)

Section Thumbnail.

Context `{RT : Runtime}.

Lemma first_image_of_first_present (pf : ProcreateFile) (z : ZipFile)
    (data : bytes) (img : Image) (paths : list string) :
  _zip pf = Some z -> zip_consistent z ->
  read_first_present z paths = Ret (Some data) ->
  Image_open data = Some img ->
  first_image pf paths = Some img.
Proof.
  intros Hz Hc Hread Himg. induction paths as [|p paths IH]; [discriminate Hread|].
  cbn [read_first_present first_image] in *. unfold _try_load_image.
  rewrite Hz. cbn [mbind option_bind].
  destruct (has_entry z p) eqn:Hp.
  - destruct (zip_read z p) as [d|]; [|discriminate Hread].
    cbn in Hread. injection Hread as ->. cbn. rewrite Himg. reflexivity.
  - rewrite (Hc p Hp). cbn. apply IH. exact Hread.
Qed.

(** The raw thumbnail bytes and the loaded thumbnail agree: when
    [extract_thumbnail_bytes] returns bytes that the image decoder
    accepts, [_load_thumbnail] sets the thumbnail to the image decoded
    from exactly those bytes. *)
Theorem thumbnail_bytes_agree (pf : ProcreateFile) (z : ZipFile)
    (data : bytes) (img : Image) :
  _zip pf = Some z -> zip_consistent z ->
  extract_thumbnail_bytes pf = Ret (Some data) ->
  Image_open data = Some img ->
  exists pf', _load_thumbnail pf = Ret pf' /\ thumbnail pf' = Some img.
Proof.
  intros Hz Hc Hread Himg. unfold extract_thumbnail_bytes in Hread.
  rewrite Hz in Hread. unfold _load_thumbnail.
  rewrite (first_image_of_first_present pf z data img _ Hz Hc Hread Himg).
  eexists. split; reflexivity.
Qed.

(** When the container has none of the three candidate entries there are
    no thumbnail bytes, whatever else it holds. *)
Theorem thumbnail_bytes_absent (pf : ProcreateFile) (z : ZipFile) :
  _zip pf = Some z ->
  Forall (fun p => has_entry z p = false)
    ["QuickLook/Thumbnail.png"; "QuickLook/thumbnail.png"; "Thumbnail.png"] ->
  extract_thumbnail_bytes pf = Ret None.
Proof.
  intros Hz H. unfold extract_thumbnail_bytes. rewrite Hz.
  repeat match goal with
         | Hf : Forall _ (_ :: _) |- _ => apply Forall_cons in Hf; destruct Hf as [? Hf]
         end.
  cbn [read_first_present].
  repeat match goal with Hp : has_entry z _ = false |- _ => rewrite Hp; clear Hp end.
  reflexivity.
Qed.

End Thumbnail.

Lemma zip_of_consistent (entries : list (string * bytes)) :
  zip_consistent (zip_of entries).
Proof.
  intros n H. unfold has_entry, zip_of in *. cbn [namelist zip_read] in *.
  destruct (find _ (rev entries)) as [e|] eqn:E; [|reflexivity].
  exfalso. apply find_some in E as [Hin He]. apply in_rev in Hin.
  assert (Hex : existsb (String.eqb n) (map fst entries) = true).
  { apply existsb_exists. exists (fst e).
    split; [apply in_map; exact Hin | rewrite String.eqb_sym; exact He]. }
  congruence.
Qed.

(** The preview container has its thumbnail under the second candidate
    name. *)
Lemma thumbnail_bytes_agree_witness :
  extract_thumbnail_bytes (set_zip (Some preview_zip) initial_file)
  = Ret (Some Samples.png_bytes)
  /\ exists pf',
       _load_thumbnail (RT := Samples.rt) (set_zip (Some preview_zip) initial_file)
       = Ret pf'
       /\ thumbnail pf' = Some Samples.thumb.
Proof.
  split; [reflexivity|].
  apply (@thumbnail_bytes_agree Samples.rt _ preview_zip Samples.png_bytes);
    [reflexivity | apply zip_of_consistent | reflexivity | reflexivity].
Defined.

Lemma thumbnail_bytes_absent_witness :
  extract_thumbnail_bytes (set_zip (Some lowercase_zip) initial_file) = Ret None.
Proof.
  apply (thumbnail_bytes_absent _ lowercase_zip); [reflexivity|].
  repeat constructor.
Defined.

(** ** Blend mode names *)

(** Every blend mode code from 0 to 23 has a name of the table, and every
    other code, negative ones included, is rendered as "Unknown (code)". *)
Theorem blend_mode_name_known_range (mode : Z) :
  (0 <= mode <= 23 ->
   exists nm, BLEND_MODES !! mode = Some nm /\ get_blend_mode_name mode = nm)
  /\ (mode < 0 \/ 23 < mode ->
      get_blend_mode_name mode
      = String.append "Unknown (" (String.append (str_of_int mode) ")")).
Proof.
  split.
  - intros H.
    assert (Hin : In mode (map Z.of_nat (seq 0 24))).
    { apply in_map_iff. exists (Z.to_nat mode). split; [lia|]. apply in_seq. lia. }
    cbn in Hin.
    repeat (destruct Hin as [<-|Hin]; [eexists; split; reflexivity|]).
    destruct Hin.
  - intros H. unfold get_blend_mode_name.
    replace (BLEND_MODES !! mode) with (@None string); [reflexivity|].
    symmetry. unfold BLEND_MODES. apply not_elem_of_list_to_map.
    cbn [fmap list_fmap fst]. intros Hin.
    repeat (apply elem_of_cons in Hin as [->|Hin]; [lia|]).
    apply elem_of_nil in Hin. exact Hin.
Qed.

(** Code 3 is in the table; 99 and -1 are not. *)
Lemma blend_mode_name_known_range_witness :
  get_blend_mode_name 3 = "Overlay"
  /\ get_blend_mode_name 99 = "Unknown (99)"
  /\ get_blend_mode_name (-1) = "Unknown (-1)".
Proof.
  split; [|split].
  - destruct (proj1 (blend_mode_name_known_range 3) ltac:(lia))
      as (nm & Hnm & ->).
    vm_compute in Hnm. injection Hnm as <-. reflexivity.
  - rewrite (proj2 (blend_mode_name_known_range 99) ltac:(lia)). reflexivity.
  - rewrite (proj2 (blend_mode_name_known_range (-1)) ltac:(lia)). reflexivity.
Defined.

(** ** The tile codecs *)

Section Codecs.

Context `{RT : Runtime}.

Lemma py_slice_length {A} (raw : list A) (a b : Z) :
  0 <= a ->
  len (py_slice raw a b) = Z.max 0 (Z.min b (len raw) - Z.min a (len raw)).
Proof.
  intros Ha. unfold py_slice, len. rewrite length_take, length_drop. lia.
Qed.

(** The slice of [pre ++ rest] that starts where [pre] ends is a slice of
    [rest]. *)
Lemma py_slice_app_r {A} (pre rest : list A) (n : Z) :
  0 <= n ->
  py_slice (pre ++ rest) (len pre) (len pre + n) = py_slice rest 0 n.
Proof.
  intros Hn. unfold py_slice. rewrite len_app.
  pose proof (len_nonneg pre). pose proof (len_nonneg rest).
  rewrite (Z.min_l (len pre)) by lia. rewrite (Z.min_l 0) by lia.
  replace (Z.min (len pre + n) (len pre + len rest) - len pre)
    with (Z.min n (len rest) - 0) by lia.
  replace (Z.to_nat (len pre)) with (length pre) by (unfold len; lia).
  rewrite drop_app_length. reflexivity.
Qed.

(** Fewer than four bytes at [off]: [struct.error]. *)
Lemma unpack_from_le32_short (raw : bytes) (off : Z) :
  0 <= off -> len raw < off + 4 -> unpack_from_le32 raw off = Raise.
Proof.
  intros Hoff Hlen. unfold unpack_from_le32.
  pose proof (py_slice_length raw off (off + 4) Hoff) as Hl.
  destruct (py_slice raw off (off + 4)) as [|b0 [|b1 [|b2 [|b3 [|b4 l]]]]];
    try reflexivity.
  unfold len in Hl at 1. cbn [length] in Hl. pose proof (len_nonneg raw). lia.
Qed.

(** The loop on a sequence of sub-blocks followed by [rest], given what
    the loop does when it reaches [rest]. *)
Lemma bv41_loop_stream_then (blocks : list (Z * bytes)) (rest : bytes)
    (k : list bytes -> Result (list bytes)) :
  Forall block_fits blocks ->
  (forall fuel pre d parts,
      bv41_loop (S fuel) (pre ++ rest) (len pre) d parts = Some (k parts)) ->
  forall (fuel : nat) (pre prev_dict : bytes) (bv_parts : list bytes),
    (length blocks < fuel)%nat ->
    bv41_loop fuel (pre ++ encode_stream blocks rest) (len pre) prev_dict bv_parts
    = Some (chunks ← chained_decompress prev_dict blocks; k (bv_parts ++ chunks)).
Proof.
  intros Hfit Hrest. induction Hfit as [|[u payload] blocks [Hu Hc] Hfit IH];
    intros fuel pre prev_dict bv_parts Hfuel.
  - destruct fuel as [|fuel]; [cbn in Hfuel; lia|].
    cbn [encode_stream chained_decompress]. result_step.
    rewrite app_nil_r. apply Hrest.
  - destruct fuel as [|fuel]; [cbn in Hfuel; lia|].
    cbn [encode_stream chained_decompress fst snd length] in *.
    rewrite bv41_loop_block by assumption.
    destruct (lz4_block_decompress payload u (Some prev_dict)) as [chunk|];
      result_step; [|reflexivity].
    rewrite IH by lia.
    destruct (chained_decompress chunk blocks) as [chunks|]; result_step;
      [|reflexivity].
    rewrite <- app_assoc. reflexivity.
Qed.

(** At bytes that do not start with the magic tag the loop ends with the
    parts it has. *)
Lemma bv41_loop_not_magic (fuel : nat) (pre rest d : bytes)
    (parts : list bytes) :
  py_slice rest 0 4 <> bv41_magic ->
  bv41_loop (S fuel) (pre ++ rest) (len pre) d parts = Some (Ret parts).
Proof.
  intros Hne. cbn [bv41_loop].
  destruct (len pre <? len (pre ++ rest)); [|reflexivity].
  rewrite py_slice_app_r by lia.
  destruct (bytes_eqb (py_slice rest 0 4) bv41_end); [reflexivity|].
  destruct (bytes_eqb (py_slice rest 0 4) bv41_magic) eqn:E; [|reflexivity].
  apply bytes_eqb_eq in E. contradiction.
Qed.

(** At a magic tag followed by fewer than eight bytes the loop raises. *)
Lemma bv41_loop_cut_header (fuel : nat) (pre t d : bytes)
    (parts : list bytes) :
  len t < 8 ->
  bv41_loop (S fuel) (pre ++ bv41_magic ++ t) (len pre) d parts = Some Raise.
Proof.
  intros Ht. pose proof (len_nonneg pre). pose proof (len_nonneg t).
  assert (Hraw : len (pre ++ bv41_magic ++ t) = len pre + 4 + len t).
  { rewrite !len_app. change (len bv41_magic) with 4. lia. }
  cbn [bv41_loop].
  replace (len pre <? len (pre ++ bv41_magic ++ t)) with true
    by (symmetry; apply Z.ltb_lt; lia).
  rewrite (py_slice_app pre bv41_magic t) by reflexivity.
  replace (bytes_eqb bv41_magic bv41_end) with false by reflexivity.
  rewrite bytes_eqb_refl. cbn [negb].
  destruct (unpack_from_le32 _ (len pre + 4)); [|reflexivity].
  rewrite unpack_from_le32_short by lia. reflexivity.
Qed.

(** Reading stops silently at the first offset that does not hold the
    magic tag: whatever bytes follow the last well-formed sub-block, the
    chained-block decoder returns the sub-blocks decoded so far and never
    looks at more than the first four of those bytes. *)
Theorem bv41_trailing_bytes_ignored (blocks : list (Z * bytes))
    (rest : bytes) :
  Forall block_fits blocks ->
  py_slice rest 0 4 <> bv41_magic ->
  bv41_decode (encode_stream blocks rest)
  = (chunks ← chained_decompress [] blocks; Ret (concat chunks)).
Proof.
  intros Hfit Hne. unfold bv41_decode.
  pose proof (bv41_loop_stream_then blocks rest Ret Hfit
                (fun fuel pre d parts =>
                   bv41_loop_not_magic fuel pre rest d parts Hne)
                (S (length (encode_stream blocks rest))) [] [] []) as H.
  cbn [app] in H. change (len (@nil byte)) with 0 in H.
  rewrite H by (pose proof (length_encode_stream blocks rest); lia).
  destruct (chained_decompress [] blocks); reflexivity.
Qed.

(** A sub-block header that is cut short fails the whole decode: a stream
    of well-formed sub-blocks followed by a magic tag and fewer than eight
    further bytes raises inside the chained-block method, so the
    sub-blocks already decoded are discarded and the method gives
    nothing. *)
Theorem bv41_cut_header_discards_all (blocks : list (Z * bytes))
    (t : bytes) :
  Forall block_fits blocks -> len t < 8 ->
  bv41_decode (encode_stream blocks (bv41_magic ++ t)) = Raise
  /\ method0 (encode_stream blocks (bv41_magic ++ t)) = None.
Proof.
  intros Hfit Ht.
  assert (Hd : bv41_decode (encode_stream blocks (bv41_magic ++ t)) = Raise).
  { unfold bv41_decode.
    pose proof (bv41_loop_stream_then blocks (bv41_magic ++ t)
                  (fun _ => Raise) Hfit
                  (fun fuel pre d parts =>
                     bv41_loop_cut_header fuel pre t d parts Ht)
                  (S (length (encode_stream blocks (bv41_magic ++ t)))) [] [] [])
      as H.
    cbn [app] in H. change (len (@nil byte)) with 0 in H.
    rewrite H by (pose proof (length_encode_stream blocks (bv41_magic ++ t)); lia).
    destruct (chained_decompress [] blocks); reflexivity. }
  split; [exact Hd|].
  unfold method0. rewrite Hd. destruct (bytes_eqb _ _); reflexivity.
Qed.

(** An entry stored uncompressed is taken as it is, whatever the codecs
    would make of it: when its length is the expected one and it does not
    start with the magic tag, the decode chain returns the entry itself
    without calling a decompressor. *)
Theorem decode_tile_stored (raw : bytes) (expected_size : Z) :
  len raw = expected_size ->
  py_slice raw 0 4 <> bv41_magic ->
  decode_tile raw expected_size = Some raw.
Proof.
  intros Hlen Hne. unfold decode_tile, tile_pixels, method0, method1.
  destruct (bytes_eqb (py_slice raw 0 4) bv41_magic) eqn:E.
  { apply bytes_eqb_eq in E. contradiction. }
  subst expected_size. rewrite Z.eqb_refl. cbn iota. rewrite Z.eqb_refl.
  reflexivity.
Qed.

End Codecs.

(** Two sub-blocks followed by four stray bytes decode to the two
    chunks. *)
Lemma bv41_trailing_bytes_ignored_witness :
  bv41_decode (RT := Samples.rt)
    (encode_stream Samples.two_blocks Samples.garbage)
  = Ret ([x61; x62; x63; x64] ++ [x61; x62; x63; x64; x76; x77; x78; x79; x7a]).
Proof.
  rewrite (@bv41_trailing_bytes_ignored Samples.rt Samples.two_blocks
             Samples.garbage).
  - reflexivity.
  - repeat constructor; by_evaluation.
  - discriminate.
Defined.

(** Two sub-blocks followed by a third whose header stops after the
    declared size. *)
Lemma bv41_cut_header_discards_all_witness :
  bv41_decode (RT := Samples.rt)
    (encode_stream Samples.two_blocks (bv41_magic ++ encode_le32 4)) = Raise
  /\ method0 (RT := Samples.rt)
       (encode_stream Samples.two_blocks (bv41_magic ++ encode_le32 4)) = None.
Proof.
  apply (@bv41_cut_header_discards_all Samples.rt Samples.two_blocks
           (encode_le32 4)).
  - repeat constructor; by_evaluation.
  - by_evaluation.
Defined.

(** The red sample tile under a runtime without any codec. *)
Lemma decode_tile_stored_witness :
  decode_tile (RT := sample_runtime [] []) Samples.red_tile 16
  = Some Samples.red_tile.
Proof.
  apply (@decode_tile_stored (sample_runtime [] []));
    [reflexivity | discriminate].
Defined.

(** ** The composite *)

Section CompositeResult.

Context `{RT : Runtime}.

Lemma alpha_composite_size (dst src r : Image) :
  alpha_composite dst src = Ret r -> Image_size r = Image_size dst.
Proof.
  unfold alpha_composite. destruct (size_eqb _ _); [|discriminate].
  intros [= <-]. reflexivity.
Qed.

(** The loop keeps the size of the working image, and sets [loaded_any]
    only at a visible layer that has an image. *)
Lemma composite_loop_result (pf : ProcreateFile) (ov : option (gmap Z bool))
    (ls : list ProcreateLayer) :
  forall (i : Z) (result : Image) (la : bool) (r : Image) (la' : bool),
    composite_loop pf ov i ls result la = Ret (r, la') ->
    Image_size r = Image_size result
    /\ (la' = true ->
        la = true
        \/ exists k layer L,
             nth_error ls k = Some layer
             /\ effective_visible ov (i + Z.of_nat k) layer = true
             /\ load_layer_image pf (i + Z.of_nat k) = Ret (Some L)).
Proof.
  induction ls as [|layer rest IH]; intros i result la r la' H.
  - cbn in H. injection H as <- <-. auto.
  - assert (Hshift : forall res b,
              composite_loop pf ov (i + 1) rest res b = Ret (r, la') ->
              Image_size r = Image_size res
              /\ (la' = true ->
                  b = true
                  \/ exists k layer0 L,
                       nth_error (layer :: rest) k = Some layer0
                       /\ effective_visible ov (i + Z.of_nat k) layer0 = true
                       /\ load_layer_image pf (i + Z.of_nat k) = Ret (Some L))).
    { intros res b Hr. destruct (IH _ _ _ _ _ Hr) as [Hs Hl].
      split; [exact Hs|]. intros Ht.
      destruct (Hl Ht) as [Hb | (k & layer0 & L & Hn & Hv & Hload)]; [left; exact Hb|].
      right. exists (S k), layer0, L.
      replace (i + Z.of_nat (S k)) with (i + 1 + Z.of_nat k) by lia. auto. }
    cbn [composite_loop] in H.
    destruct (effective_visible ov i layer) eqn:Hvis; cbn [negb] in H;
      [|apply Hshift; exact H].
    destruct (load_layer_image pf i) as [[L|]|] eqn:Hload; result_step;
      try discriminate; [|apply Hshift; exact H].
    cbn [mbind Result_bind] in H.
    assert (Hhere : exists k layer0 L0,
               nth_error (layer :: rest) k = Some layer0
               /\ effective_visible ov (i + Z.of_nat k) layer0 = true
               /\ load_layer_image pf (i + Z.of_nat k) = Ret (Some L0)).
    { exists O, layer, L. cbn [nth_error]. rewrite Z.add_0_r. auto. }
    destruct (if PrimFloat.ltb (opacity layer) 1 then _ else _) as [L'|];
      [|discriminate]. result_step. cbn [mbind Result_bind] in H.
    destruct (alpha_composite result L') as [res|] eqn:Hac; [|discriminate].
    cbn [mbind Result_bind] in H.
    destruct (IH _ _ _ _ _ H) as [Hs _].
    split; [rewrite Hs; apply (alpha_composite_size _ _ _ Hac)|].
    intros _. right. exact Hhere.
Qed.

(** A composite, when there is one, has exactly the canvas size, the
    canvas has positive width and height, and at least one layer that is
    visible under the overrides has a layer image. *)
Theorem composite_layers_result (pf : ProcreateFile)
    (ov : option (gmap Z bool)) (img : Image) :
  composite_layers pf ov = Ret (Some img) ->
  Image_size img = (canvas_width pf, canvas_height pf)
  /\ 0 < canvas_width pf /\ 0 < canvas_height pf
  /\ exists k layer L,
       nth_error (layers pf) k = Some layer
       /\ effective_visible ov (Z.of_nat k) layer = true
       /\ load_layer_image pf (Z.of_nat k) = Ret (Some L).
Proof.
  unfold composite_layers. intros H.
  destruct (layers pf) as [|l0 ls] eqn:Hls; [discriminate|]. rewrite <- Hls in *.
  destruct ((canvas_width pf <=? 0) || (canvas_height pf <=? 0)) eqn:Hwh;
    [discriminate|].
  apply orb_false_iff in Hwh. rewrite !Z.leb_gt in Hwh.
  destruct (composite_loop _ _ _ _ _ _) as [[r la]|] eqn:Hloop; [|discriminate].
  destruct la; [|discriminate]. injection H as ->.
  destruct (composite_loop_result _ _ _ _ _ _ _ _ Hloop) as [Hs Hl].
  split; [exact Hs|]. split; [tauto|]. split; [tauto|].
  destruct (Hl eq_refl) as [Hf | Hex]; [discriminate|]. exact Hex.
Qed.

(** The loop returns when every layer image can be loaded and every
    opacity below one can be applied: the working image and the layer
    images all have the canvas size. *)
Lemma composite_loop_returns (pf : ProcreateFile) (ov : option (gmap Z bool))
    (ls : list ProcreateLayer) :
  forall (i : Z) (result : Image) (la : bool),
    Image_size result = (canvas_width pf, canvas_height pf) ->
    (forall k, (k < length ls)%nat ->
       exists r, load_layer_image pf (i + Z.of_nat k) = Ret r) ->
    (forall layer L, In layer ls -> PrimFloat.ltb (opacity layer) 1 = true ->
       exists L', apply_opacity (opacity layer) L = Ret L') ->
    exists r, composite_loop pf ov i ls result la = Ret r.
Proof.
  induction ls as [|layer rest IH]; intros i result la Hsize Hload Hop;
    [eexists; reflexivity|].
  assert (Hrest : forall res b,
            Image_size res = (canvas_width pf, canvas_height pf) ->
            exists r, composite_loop pf ov (i + 1) rest res b = Ret r).
  { intros res b Hres. apply IH; [exact Hres | |].
    - intros k Hk. destruct (Hload (S k)) as [r Hr]; [cbn; lia|].
      exists r. rewrite <- Hr. f_equal. lia.
    - intros layer0 L Hin. apply Hop. right. exact Hin. }
  cbn [composite_loop].
  destruct (effective_visible ov i layer); cbn [negb]; [|apply Hrest; exact Hsize].
  destruct (Hload O) as [[L|] HL]; [cbn; lia | |];
    rewrite Z.add_0_r in HL; rewrite HL; result_step;
    [|apply Hrest; exact Hsize].
  destruct (load_layer_image_canvas pf i L HL) as (HLs & _ & _).
  assert (Hscaled : exists L',
            (if PrimFloat.ltb (opacity layer) 1
             then apply_opacity (opacity layer) L else Ret L) = Ret L'
            /\ Image_size L' = (canvas_width pf, canvas_height pf)).
  { destruct (PrimFloat.ltb (opacity layer) 1) eqn:Hlt.
    - destruct (Hop layer L (or_introl eq_refl) Hlt) as [L' HL'].
      exists L'. split; [exact HL'|].
      destruct (apply_opacity_spec _ _ _ HL') as [Hs _]. congruence.
    - exists L. auto. }
  destruct Hscaled as (L' & -> & HLs'). result_step.
  unfold alpha_composite at 1.
  replace (size_eqb (Image_size result) (Image_size L')) with true
    by (symmetry; apply size_eqb_eq; congruence).
  result_step. apply Hrest. exact Hsize.
Qed.

(** Compositing never fails on a size mismatch: when every layer image
    can be loaded and every opacity below one can be applied, the call
    returns, because each layer image has the size of the working image
    when the two are blended. *)
Theorem composite_layers_returns (pf : ProcreateFile)
    (ov : option (gmap Z bool)) :
  (forall k, (k < length (layers pf))%nat ->
     exists r, load_layer_image pf (Z.of_nat k) = Ret r) ->
  (forall layer L, In layer (layers pf) ->
     PrimFloat.ltb (opacity layer) 1 = true ->
     exists L', apply_opacity (opacity layer) L = Ret L') ->
  exists r, composite_layers pf ov = Ret r.
Proof.
  intros Hload Hop. unfold composite_layers.
  destruct (layers pf) as [|l0 ls] eqn:Hls; [eexists; reflexivity|].
  rewrite <- Hls in *.
  destruct ((canvas_width pf <=? 0) || (canvas_height pf <=? 0));
    [eexists; reflexivity|].
  destruct (composite_loop_returns pf ov (layers pf) 0
              (Image_new (canvas_width pf, canvas_height pf) (mkRGBA 255 255 255 0))
              false eq_refl) as [[r la] Hr]; [exact Hload | exact Hop |].
  rewrite Hr. eexists; reflexivity.
Qed.

End CompositeResult.

(** The composite of the sample document with its layer at half opacity. *)
Lemma composite_layers_result_witness :
  exists img,
    composite_layers (RT := Samples.rt) Samples.drawing_half None = Ret (Some img)
    /\ Image_size img = (2, 4)
    /\ load_layer_image (RT := Samples.rt) Samples.drawing_half 0
       = Ret (Some (Samples.first_layer_image Samples.drawing_half)).
Proof.
  assert (H : match composite_layers (RT := Samples.rt) Samples.drawing_half None with
              | Ret (Some _) => true
              | _ => false
              end = true) by (vm_compute; reflexivity).
  destruct (composite_layers (RT := Samples.rt) Samples.drawing_half None)
    as [[img|]|] eqn:E; try discriminate H.
  exists img. split; [reflexivity|].
  destruct (@composite_layers_result Samples.rt Samples.drawing_half None img E)
    as (Hs & _ & _ & _).
  split; [exact Hs | reflexivity].
Defined.

(** The sample document at half opacity: its one layer loads and its
    opacity applies. *)
Lemma composite_layers_returns_witness :
  exists r, composite_layers (RT := Samples.rt) Samples.drawing_half
              (Some {[ 0 := true ]}) = Ret r.
Proof.
  apply (@composite_layers_returns Samples.rt Samples.drawing_half).
  - intros k Hk. change (length (layers Samples.drawing_half)) with 1%nat in Hk.
    assert (k = O) as -> by lia.
    exists (Some (Samples.first_layer_image Samples.drawing_half)). reflexivity.
  - intros layer L Hin _. change (layers Samples.drawing_half)
      with [mkLayer "Sketch" "L1" 0.5%float true 0] in Hin.
    destruct Hin as [<-|[]]. cbn [opacity].
    assert (Hlut : match mapM (scale_by 0.5) (map Z.of_nat (seq 0 256)) with
                   | Ret _ => true
                   | Raise => false
                   end = true) by (vm_compute; reflexivity).
    unfold apply_opacity, point. cbn [split_bands].
    destruct (mapM (scale_by 0.5) (map Z.of_nat (seq 0 256)));
      [eexists; reflexivity | discriminate Hlut].
Defined.

(** ** Tile placement *)

Section TilePlacement.

Context `{RT : Runtime}.



End TilePlacement.


(** ** Tile names *)

(** One step of string concatenation. *)
Ltac append_step :=
  repeat match goal with
         | |- context [String.append (String ?c ?a) ?b] =>
             change (String.append (String c a) b) with (String c (String.append a b))
         | |- context [String.append EmptyString ?b] =>
             change (String.append EmptyString b) with b
         end.

Lemma substring_all (s : string) : substring 0 (String.length s) s = s.
Proof. induction s as [|c s IH]; [reflexivity|]. cbn. rewrite IH. reflexivity. Qed.

Lemma length_append (a b : string) :
  String.length (String.append a b) = (String.length a + String.length b)%nat.
Proof.
  induction a as [|c a IH]; [reflexivity|]. append_step. cbn. rewrite IH.
  reflexivity.
Qed.

Lemma append_assoc (a b c : string) :
  String.append (String.append a b) c = String.append a (String.append b c).
Proof.
  induction a as [|d a IH]; [reflexivity|]. append_step. rewrite IH.
  reflexivity.
Qed.

(** [(p + s)[len(p):]] *)
Lemma str_from_append (p s : string) :
  str_from (String.length p) (String.append p s) = s.
Proof.
  unfold str_from. induction p as [|c p IH].
  - append_step. cbn [String.length]. rewrite Nat.sub_0_r. apply substring_all.
  - append_step. cbn [String.length Nat.sub substring]. exact IH.
Qed.

Lemma substring_prefix (a b : string) :
  substring 0 (String.length a) (String.append a b) = a.
Proof.
  induction a as [|c a IH]; [destruct b; reflexivity|].
  append_step. cbn. rewrite IH. reflexivity.
Qed.

Lemma lower_append (a b : string) :
  lower (String.append a b) = String.append (lower a) (lower b).
Proof.
  induction a as [|c a IH]; [reflexivity|]. append_step. cbn. rewrite IH.
  reflexivity.
Qed.

Lemma length_lower (s : string) : String.length (lower s) = String.length s.
Proof. induction s as [|c s IH]; [reflexivity|]. cbn. rewrite IH. reflexivity. Qed.

Lemma endswith_append (a p : string) : endswith (String.append a p) p = true.
Proof.
  unfold endswith. rewrite length_append.
  replace (String.length a + String.length p - String.length p)%nat
    with (String.length a) by lia.
  rewrite str_from_append, String.eqb_refl.
  replace (String.length p <=? String.length a + String.length p)%nat with true
    by (symmetry; apply Nat.leb_le; lia).
  reflexivity.
Qed.

(** A name that ends in ".lz4" does not end in ".chunk". *)
Lemma lz4_not_chunk (a : string) :
  endswith (String.append a ".lz4") ".chunk" = false.
Proof.
  destruct (endswith (String.append a ".lz4") ".chunk") eqn:E; [|reflexivity].
  exfalso. unfold endswith in E. apply andb_true_iff in E as [Hlen Heq].
  apply Nat.leb_le in Hlen. apply String.eqb_eq in Heq.
  rewrite length_append in *. cbn [String.length] in *.
  unfold str_from in Heq. rewrite length_append in Heq. cbn [String.length] in Heq.
  pose proof (substring_correct1 (String.append a ".lz4")
                (String.length a + 4 - 6) (String.length a + 4 - (String.length a + 4 - 6))
                5 ltac:(lia)) as Hget.
  rewrite Heq in Hget.
  replace (5 + (String.length a + 4 - 6))%nat with (3 + String.length a)%nat in Hget by lia.
  rewrite <- append_correct2 in Hget. discriminate Hget.
Qed.

Lemma strip_tile_ext_append (a ext : string) :
  lower ext = ".chunk" \/ lower ext = ".lz4" ->
  strip_tile_ext (String.append a ext) = a
  /\ has_tile_ext (String.append a ext) = true.
Proof.
  intros Hext. unfold strip_tile_ext, has_tile_ext, str_drop_last.
  rewrite lower_append, length_append.
  pose proof (length_lower ext) as Hl.
  destruct Hext as [H|H]; rewrite H in *; cbn [String.length] in Hl; rewrite <- Hl.
  - rewrite endswith_append. cbn [orb].
    replace (String.length a + 6 - 6)%nat with (String.length a) by lia.
    split; [apply substring_prefix | reflexivity].
  - rewrite lz4_not_chunk, endswith_append. cbn [orb].
    replace (String.length a + 4 - 4)%nat with (String.length a) by lia.
    split; [apply substring_prefix | reflexivity].
Qed.

Lemma has_char_append (c : ascii) (a b : string) :
  has_char c (String.append a b) = has_char c a || has_char c b.
Proof.
  induction a as [|d a IH]; [reflexivity|].
  append_step. cbn. rewrite IH. apply orb_assoc.
Qed.

Lemma has_char_digits (c : ascii) (s : string) :
  is_digit c = false -> all_digits s = true -> has_char c s = false.
Proof.
  intros Hc. induction s as [|d s IH]; [reflexivity|].
  cbn. intros H. apply andb_true_iff in H as [Hd Hs].
  rewrite (IH Hs), orb_false_r.
  destruct (Ascii.eqb c d) eqn:E; [|reflexivity].
  apply Ascii.eqb_eq in E. congruence.
Qed.

Lemma str_split_none (c : ascii) (s : string) :
  has_char c s = false -> str_split c s = [s].
Proof.
  induction s as [|d s IH]; [reflexivity|].
  cbn. intros H. apply orb_false_iff in H as [Hd Hs].
  rewrite Hd, (IH Hs). reflexivity.
Qed.

(** [(a + c + b).split(c)] when [c] occurs in neither part. *)
Lemma str_split_once (c : ascii) (a b : string) :
  has_char c a = false -> has_char c b = false ->
  str_split c (String.append a (String c b)) = [a; b].
Proof.
  intros Ha Hb. induction a as [|d a IH].
  - append_step. cbn. rewrite Ascii.eqb_refl, (str_split_none c b Hb). reflexivity.
  - cbn in Ha. apply orb_false_iff in Ha as [Hd Ha].
    append_step. cbn. rewrite Hd, (IH Ha). reflexivity.
Qed.

Lemma is_digit_cases (c : ascii) :
  is_digit c = true ->
  In c ["0"; "1"; "2"; "3"; "4"; "5"; "6"; "7"; "8"; "9"]%char.
Proof.
  destruct c as [[] [] [] [] [] [] [] []]; intros H;
    try discriminate H; cbn; auto 12.
Qed.

Lemma rstrip_digits (s : string) : all_digits s = true -> rstrip s = s.
Proof.
  induction s as [|c s IH]; [reflexivity|].
  cbn [all_digits rstrip]. intros H. apply andb_true_iff in H as [Hc Hs].
  rewrite (IH Hs).
  destruct s; [|reflexivity].
  apply is_digit_cases in Hc. cbn in Hc.
  repeat (destruct Hc as [<-|Hc]; [reflexivity|]). destruct Hc.
Qed.

(** [int(s)] for a non-empty string of digits is the value of the
    digits. *)
Lemma int_of_str_digits (s : string) :
  all_digits s = true -> s <> "" -> int_of_str s = digits_value s 0 false.
Proof.
  intros H Hne. destruct s as [|c s]; [congruence|].
  unfold int_of_str.
  pose proof H as H'. cbn [all_digits] in H'. apply andb_true_iff in H' as [Hc _].
  apply is_digit_cases in Hc. cbn in Hc.
  repeat (destruct Hc as [<-|Hc];
          [cbn [lstrip];
           match goal with
           | |- context [is_space ?d] => change (is_space d) with false
           end;
           cbn iota; rewrite (rstrip_digits _ H); reflexivity|]).
  destruct Hc.
Qed.

Lemma digits_value_uint (d : Decimal.uint) :
  forall a : nat,
    digits_value (NilEmpty.string_of_uint d) (Z.of_nat a) true
    = Some (Z.of_nat (Nat.of_uint_acc d a)).
Proof.
  induction d as [|d IH|d IH|d IH|d IH|d IH|d IH|d IH|d IH|d IH|d IH];
    intros a; [reflexivity|..];
    cbn [NilEmpty.string_of_uint Nat.of_uint_acc]; rewrite <- IH;
    rewrite Nat.tail_mul_spec;
    change (digits_value (String ?c ?r) ?acc true)
      with (digits_value r (10 * acc + digit_val c) true);
    f_equal;
    match goal with
    | |- context [digit_val ?c] =>
        let v := eval vm_compute in (digit_val c) in change (digit_val c) with v
    end; lia.
Qed.

(** [int(str(n)) == n] *)
Lemma int_of_str_of_nat (n : nat) :
  all_digits (str_of_nat n) = true
  /\ int_of_str (str_of_nat n) = Some (Z.of_nat n).
Proof.
  unfold str_of_nat.
  assert (Hall : forall d, all_digits (NilEmpty.string_of_uint d) = true)
    by (induction d; cbn; auto).
  pose proof (DecimalNat.Unsigned.of_to n) as Hn. unfold Nat.of_uint in Hn.
  destruct (Nat.to_uint n) as [|d|d|d|d|d|d|d|d|d|d];
    (split;
     [first [reflexivity | apply (Hall (_ d))]
     |rewrite int_of_str_digits;
      [|first [reflexivity | apply (Hall (_ d))] | discriminate]]).
  all: rewrite <- Hn.
  all: try reflexivity.
  all: cbn [NilZero.string_of_uint NilEmpty.string_of_uint Nat.of_uint_acc].
  all: rewrite <- digits_value_uint, Nat.tail_mul_spec; reflexivity.
Qed.

(** Names of both tile formats are selected and read back: for the
    separator "~" or "_" and an extension that is ".chunk" or ".lz4" in
    any letter case, the name [prefix + str(col) + sep + str(row) + ext]
    starts with the prefix, passes the extension filter, and after the
    prefix and the extension are removed gives the column and the row
    back. *)
Theorem tile_name_round_trip (prefix : string) (col row : nat)
    (sep : ascii) (ext : string) :
  sep = "~"%char \/ sep = "_"%char ->
  lower ext = ".chunk" \/ lower ext = ".lz4" ->
  let n := tile_name prefix col sep row ext in
  startswith n prefix = true
  /\ has_tile_ext n = true
  /\ tile_coords (strip_tile_ext (str_from (String.length prefix) n))
     = Some (Z.of_nat col, Z.of_nat row).
Proof.
  intros Hsep Hext n. subst n. unfold tile_name.
  destruct (int_of_str_of_nat col) as [Hdc Hic].
  destruct (int_of_str_of_nat row) as [Hdr Hir].
  set (a := str_of_nat col) in *. set (b := str_of_nat row) in *.
  split; [|split].
  - unfold startswith. apply String.prefix_correct. apply substring_prefix.
  - replace (String.append prefix (String.append a (String sep (String.append b ext))))
      with (String.append (String.append prefix (String.append a (String sep b))) ext)
      by (rewrite !append_assoc; reflexivity).
    apply strip_tile_ext_append. exact Hext.
  - rewrite str_from_append.
    replace (String.append a (String sep (String.append b ext)))
      with (String.append (String.append a (String sep b)) ext)
      by (rewrite append_assoc; reflexivity).
    destruct (strip_tile_ext_append (String.append a (String sep b)) ext Hext)
      as [-> _].
    unfold tile_coords. rewrite !has_char_append. cbn [has_char].
    destruct Hsep as [-> | ->].
    + rewrite Ascii.eqb_refl, orb_true_r. cbn [mbind option_bind].
      rewrite str_split_once by (apply has_char_digits; [reflexivity | assumption]).
      rewrite Hic, Hir. reflexivity.
    + rewrite (has_char_digits "~" a), (has_char_digits "~" b)
        by (reflexivity || assumption).
      cbn [Ascii.eqb Bool.eqb orb andb].
      rewrite ?Ascii.eqb_refl, ?orb_true_r. cbn [mbind option_bind].
      rewrite str_split_once by (apply has_char_digits; [reflexivity | assumption]).
      rewrite Hic, Hir. reflexivity.
Qed.

(** The tile of column 3 and row 12 of layer "L1", in the upper-case
    spelling of the extension. *)
Lemma tile_name_round_trip_witness :
  tile_name "L1/" 3 "~" 12 ".CHUNK" = "L1/3~12.CHUNK"
  /\ has_tile_ext "L1/3~12.CHUNK" = true
  /\ tile_coords (strip_tile_ext (str_from 3 "L1/3~12.CHUNK")) = Some (3, 12).
Proof.
  destruct (tile_name_round_trip "L1/" 3 12 "~" ".CHUNK") as (_ & H1 & H2);
    [left; reflexivity | left; reflexivity |].
  split; [reflexivity|]. split; [exact H1 | exact H2].
Defined.
